(** * Dispatch and aggregation engine of the DLRM offline harness

    A shallow embedding of [closed/Intel/code/dlrm-99.9/pytorch/python/offline.py]:
    the dispatch front-end ([QueueRunner.enqueue]), the worker
    ([Consumer.__init__], [Consumer.run]), the result collector
    ([response_loadgen]) and the two coordinator sequences of [main]
    ([load_query_samples] and the shutdown tail).

    Conventions.
    - Python [int] is [Z]; a [len] and a loop position are [nat].
    - Query ids and sample indexes are integers handed over by the load
      generator; both are [Z].
    - An uncaught Python exception is [None] in an [option] result.
    - A queue is the list of the values [put] on it, oldest first. *)

From Stdlib Require Import ZArith List Lia.
From Stdlib.Strings Require Import Byte Ascii.
From stdpp Require Import base tactics option list strings gmap.
Import ListNotations.

(** ** The Python built-ins the program relies on *)

Module Py.

(** One bound of [l[s:e]] normalised against [len(l) = n]: a negative bound
    counts from the end, and every bound is clamped into [0..n]. *)
Definition slice_bound (n i : Z) : Z :=
  if (i <? 0)%Z then Z.max (i + n) 0 else Z.min i n.

(** [l[s:e]] on a list (and on dimension 0 of a tensor). It never raises. *)
Definition slice {A : Type} (l : list A) (s e : Z) : list A :=
  let n := Z.of_nat (length l) in
  let s' := slice_bound n s in
  let e' := slice_bound n e in
  take (Z.to_nat (e' - s')) (drop (Z.to_nat s') l).

(** [len(range(start, stop, step))] for a non-zero [step]. *)
Definition range_len (start stop step : Z) : Z :=
  if (0 <? step)%Z then
    if (start <? stop)%Z then ((stop - start - 1) / step + 1)%Z else 0%Z
  else
    if (stop <? start)%Z then ((start - stop - 1) / (- step) + 1)%Z else 0%Z.

(** [range(start, stop, step)]; a zero step raises [ValueError]. *)
Definition range3 (start stop step : Z) : option (list Z) :=
  if (step =? 0)%Z then None
  else Some (map (fun k : nat => (start + Z.of_nat k * step)%Z)
                 (seq 0 (Z.to_nat (range_len start stop step)))).

(** [range(start, stop)]: empty when [stop <= start]. *)
Definition range (start stop : Z) : list Z := seqZ start (stop - start).

(** [round(x)] of an [int] is that [int]. *)
Definition round (x : Z) : Z := x.

(** [l[i]] for a position [i >= 0]: [IndexError] past the end. *)
Definition index {A : Type} (l : list A) (i : nat) : option A := l !! i.

End Py.

(** ** Work items and the dispatch front-end *)

(** [class Item]: the batch and the wall-clock reading taken when it is built. *)
Record Item := mkItem {
  query_id : list Z;
  content_id : list Z;
  start : Z
}.

(** The work queue carries items and the [None] sentinel. *)
Definition TaskQueue := list (option Item).

Definition put {A : Type} (x : A) (q : list A) : list A := q ++ [x].

(** [class QueueRunner]. *)
Record QueueRunner := mkQueueRunner {
  inQueue : TaskQueue;
  max_batchsize : Z
}.

(** The body of [for i in range(0, query_len, bs)]; [clock k] is what
    [time.time()] returns when the [k]-th item of the call is built. *)
Fixpoint enqueue_loop (bs query_len : Z) (qs idx : list Z) (clock : nat -> Z)
    (k : nat) (steps : list Z) (q : TaskQueue) : TaskQueue :=
  match steps with
  | [] => q
  | i :: steps' =>
      let ie := Z.min (i + bs) query_len in
      enqueue_loop bs query_len qs idx clock (S k) steps'
        (put (Some (mkItem (Py.slice qs i ie) (Py.slice idx i ie) (clock k))) q)
  end.

(** [QueueRunner.enqueue]. *)
Definition enqueue (self : QueueRunner) (clock : nat -> Z) (qs idx : list Z)
    : option QueueRunner :=
  let query_len := Z.of_nat (length qs) in
  if (query_len <? max_batchsize self)%Z then
    Some (mkQueueRunner (put (Some (mkItem qs idx (clock 0%nat))) (inQueue self))
                        (max_batchsize self))
  else
    let bs := max_batchsize self in
    match Py.range3 0 query_len bs with
    | None => None
    | Some steps =>
        Some (mkQueueRunner
                (enqueue_loop bs query_len qs idx clock 0 steps (inQueue self))
                (max_batchsize self))
    end.

(** ** CPU affinity of a worker ([Consumer.__init__]) *)

Definition affinity (cpus_per_socket : Z) (proc_num : nat) : list Z :=
  if (proc_num =? 0)%nat then
    Py.range 2 (Py.round cpus_per_socket)
  else
    Py.range (Py.round (Z.of_nat proc_num * cpus_per_socket))
             (Py.round ((Z.of_nat proc_num + 1) * cpus_per_socket)).

(** ** Tensors and byte payloads *)

(** A float32 element is carried as its 32-bit pattern; rounding and the
    comparison of two elements stay parameters of the worker. *)
Definition f32 := Z.

Definition byte_of_Z (z : Z) : byte :=
  default x00 (Byte.of_N (Z.to_N (z mod 256))).

(** The four bytes of one float32 (little-endian host). *)
Definition f32_tobytes (w : f32) : list byte :=
  [byte_of_Z w; byte_of_Z (Z.shiftr w 8);
   byte_of_Z (Z.shiftr w 16); byte_of_Z (Z.shiftr w 24)].

(** [np.array(rows, np.float32).tobytes()]: the rows in order, each row's
    elements in order. *)
Definition tobytes (rows : list (list f32)) : list byte :=
  concat (map (fun r => concat (map f32_tobytes r)) rows).

(** [torch.cat((a, b), dim=1)] of two column tensors of shapes (n, 1) and
    (m, 1), each given by its column: row [i] of the result is
    [[a_i; b_i]]; the sizes in dimension 0 must agree. *)
Definition torch_cat1 (a b : list f32) : option (list (list f32)) :=
  if (length a =? length b)%nat
  then Some (zip_with (fun x y => [x; y]) a b)
  else None.

(** [(t != 0).nonzero().size(0)] of a boolean column: how many are set. *)
Definition nonzero_size0 (hits : list bool) : nat :=
  length (filter (fun h => h = true) hits).

(** [class OItem]. *)
Module OItem.
Record t := mk {
  good : nat;
  total : nat;
  timing : Z;
  presults : list (list f32);
  query_ids : list Z;
  array_ref : list (list byte)
}.
End OItem.

(** The locals of [Consumer.run] that the [try] statement assigns. *)
Record Locals := mkLocals {
  good : nat;
  total : nat;
  presults : list (list f32);
  result_timing : Z
}.

Definition set_total (n : nat) (l : Locals) : Locals :=
  mkLocals (good l) n (presults l) (result_timing l).
Definition set_good (n : nat) (l : Locals) : Locals :=
  mkLocals n (total l) (presults l) (result_timing l).
Definition set_presults (p : list (list f32)) (l : Locals) : Locals :=
  mkLocals (good l) (total l) p (result_timing l).
Definition set_result_timing (t : Z) (l : Locals) : Locals :=
  mkLocals (good l) (total l) (presults l) t.

(** How a worker process stands: still in its loop (blocked in
    [task_queue.get()] once its input is used up), left through the
    sentinel, or dead from an exception nobody caught. *)
Inductive Status := Running | Exited | Crashed.

Record Worker := mkWorker {
  result_queue : list (option OItem.t);
  tasks_done : nat;
  status : Status
}.

(** ** The worker ([Consumer.run]) *)

Section Consumer.

(** The collaborators the worker owns. [Input] stands for the triple
    [(batch_dense_X, batch_lS_o, batch_lS_i)]; [get_samples] answers
    [(inputs, batch_T, idx_offsets)] with [batch_T] of shape (n, 1);
    [predict] answers a tensor of shape (n, 1) or raises. The call of
    [get_samples] stands before the [try] statement and is taken to answer. *)
Context {Input : Type}.
Variable get_samples : list Z -> Input * list f32 * list Z.
Variable predict : Input -> option (list f32).
Variable f32_round : f32 -> f32.
Variable f32_eqb : f32 -> f32 -> bool.

(** [a == b] on shapes (n, 1) and (m, 1), with broadcasting of a
    dimension of size 1; other size mismatches raise. *)
Definition torch_eq (a b : list f32) : option (list bool) :=
  match a, b with
  | [x], _ => Some (map (f32_eqb x) b)
  | _, [y] => Some (map (fun x => f32_eqb x y) a)
  | _, _ =>
      if (length a =? length b)%nat then Some (zip_with f32_eqb a b) else None
  end.

(** The [try] suite, lines 323-331. The flag tells whether the suite ran
    to its end; the locals are as the suite left them, so an assignment
    made before a raise stays. *)
Definition try_suite (accuracy : bool) (now : Z) (qitem : Item)
    (X : Input) (batch_T : list f32) (l : Locals) : bool * Locals :=
  match predict X with
  | None => (false, l)
  | Some results =>
      let l := set_total (length results) l in
      match torch_eq (map f32_round results) batch_T with
      | None => (false, l)
      | Some hits =>
          let l := set_good (nonzero_size0 hits) l in
          match torch_cat1 results batch_T with
          | None => (false, l)
          | Some cat =>
              let l := set_presults cat l in
              (true,
               if accuracy then set_result_timing (now - start qitem) l else l)
          end
      end
  end.

(** The [except Exception] suite. *)
Definition except_suite (qitem : Item) (l : Locals) : Locals :=
  set_presults (replicate (length (query_id qitem)) []) l.

(** The [for idx, query_id in enumerate(qitem.query_id)] loop of the
    [finally] suite; an [IndexError] on [idx_offsets] escapes. *)
Fixpoint response_loop (idx : nat) (qs : list Z) (idx_offsets : list Z)
    (pres : list (list f32)) (response_array_refs : list (list byte))
    : option (list (list byte)) :=
  match qs with
  | [] => Some response_array_refs
  | _ :: qs' =>
      s_idx ← Py.index idx_offsets idx;
      e_idx ← Py.index idx_offsets (idx + 1);
      response_loop (S idx) qs' idx_offsets pres
        (response_array_refs ++ [tobytes (Py.slice pres s_idx e_idx)])
  end.

(** One turn of the [while True] loop for a real item, lines 316-351:
    the [OItem] put on the result queue, or [None] when an exception
    leaves [run]. *)
Definition run_item (accuracy : bool) (now : Z) (qitem : Item)
    : option OItem.t :=
  let '(X, batch_T, idx_offsets) := get_samples (content_id qitem) in
  let l0 := mkLocals 0 0 [] 0 in
  let '(completed, l1) := try_suite accuracy now qitem X batch_T l0 in
  let l2 := if completed then l1 else except_suite qitem l1 in
  refs ← response_loop 0 (query_id qitem) idx_offsets (presults l2) [];
  Some (OItem.mk (good l2) (total l2) (result_timing l2)
          (if accuracy then presults l2 else [])
          (query_id qitem) refs).

(** The [while True] loop over what successive [task_queue.get()] calls
    return; [clock k] is the reading of [time.time()] in turn [k]. *)
Fixpoint run_loop (accuracy : bool) (clock : nat -> Z) (k : nat)
    (gets : TaskQueue) (w : Worker) : Worker :=
  match gets with
  | [] => w
  | None :: _ =>
      mkWorker (result_queue w) (S (tasks_done w)) Exited
  | Some qitem :: gets' =>
      match run_item accuracy (clock k) qitem with
      | None => mkWorker (result_queue w) (tasks_done w) Crashed
      | Some oitem =>
          run_loop accuracy clock (S k) gets'
            (mkWorker (put (Some oitem) (result_queue w))
                      (S (tasks_done w)) Running)
      end
  end.

Definition run (accuracy : bool) (clock : nat -> Z) (gets : TaskQueue) : Worker :=
  run_loop accuracy clock 0 gets (mkWorker [] 0 Running).

(** The offset table the dataset hands out for an item. *)
Definition offsets_of (qitem : Item) : list Z :=
  (get_samples (content_id qitem)).2.

(** A work item as the data model has it, on a dataset that answers one
    span per sample ref: as many sample refs as query ids, and an offset
    table with one more entry than sample refs. *)
Definition well_formed (qitem : Item) : Prop :=
  length (query_id qitem) = length (content_id qitem)
  /\ length (offsets_of qitem) = S (length (content_id qitem)).

(** How many rows have a rounded prediction equal to the ground truth. *)
Definition matching_rows (results batch_T : list f32) : nat :=
  length (filter (fun rt => f32_eqb (f32_round rt.1) rt.2 = true)
                 (zip results batch_T)).

End Consumer.

(** ** The result collector ([response_loadgen]) *)

(** [lg.QuerySampleResponse(q_id, bi[0], bi[1])]: the buffer stands for its
    address. *)
Record QuerySampleResponse := mkResponse {
  resp_id : Z;
  resp_data : list byte;
  resp_size : nat
}.

(** The globals the collector updates, and the batches it handed to
    [lg.QuerySamplesComplete]. *)
Record Aggregate := mkAggregate {
  item_good : nat;
  item_total : nat;
  item_timing : list Z;
  item_results : list (list (list f32));
  completed : list (list QuerySampleResponse)
}.

Definition collect (accuracy : bool) (oitem : OItem.t) (g : Aggregate) : Aggregate :=
  let response :=
    map (fun '(q_id, arr) => mkResponse q_id arr (length arr))
        (zip (OItem.query_ids oitem) (OItem.array_ref oitem)) in
  mkAggregate
    (item_good g + OItem.good oitem)
    (item_total g + OItem.total oitem)
    (if accuracy then item_timing g ++ [OItem.timing oitem] else item_timing g)
    (if accuracy then item_results g ++ [OItem.presults oitem] else item_results g)
    (completed g ++ [response]).

(** The loop of [response_loadgen] over what [outQueue.get()] returns; the
    flag tells whether the sentinel was met. *)
Fixpoint response_loadgen (accuracy : bool) (outQueue : list (option OItem.t))
    (g : Aggregate) : bool * Aggregate :=
  match outQueue with
  | [] => (false, g)
  | None :: _ => (true, g)
  | Some oitem :: rest => response_loadgen accuracy rest (collect accuracy oitem g)
  end.

(** ** The sample-window barrier ([load_query_samples] in [main]) *)

Inductive LoadPc :=
| Broadcasting (remaining : nat)
| Polling
| Returned.

Record Coord := mkCoord {
  pc : LoadPc;
  dsQueue : list (list Z);
  init_counter : Z;
  start_time : option Z
}.

(** One step of the coordinator inside [load_query_samples(sample_list)];
    [now] is what [time.time()] would return at this step. *)
Definition load_step (num_sockets : nat) (sample_list : list Z) (now : Z)
    (c : Coord) : Coord :=
  match pc c with
  | Broadcasting (S k) =>
      mkCoord (Broadcasting k) (put sample_list (dsQueue c))
              (init_counter c) (start_time c)
  | Broadcasting O =>
      mkCoord Polling (dsQueue c) (init_counter c) (start_time c)
  | Polling =>
      if (init_counter c <? 2 * Z.of_nat num_sockets)%Z
      then c
      else mkCoord Returned (dsQueue c) (init_counter c) (Some now)
  | Returned => c
  end.

(** A worker's [self.init_counter.value += 1] under the lock. *)
Definition worker_ready (c : Coord) : Coord :=
  mkCoord (pc c) (dsQueue c) (init_counter c + 1) (start_time c).

(** The coordinator and the workers interleave. *)
Inductive step (num_sockets : nat) (sample_list : list Z) : Coord -> Coord -> Prop :=
| step_coord (now : Z) (c : Coord) :
    step num_sockets sample_list c (load_step num_sockets sample_list now c)
| step_worker (c : Coord) :
    step num_sockets sample_list c (worker_ready c).

Inductive reachable (num_sockets : nat) (sample_list : list Z) (c0 : Coord)
    : Coord -> Prop :=
| reach_refl : reachable num_sockets sample_list c0 c0
| reach_step (c c' : Coord) :
    reachable num_sockets sample_list c0 c ->
    step num_sockets sample_list c c' ->
    reachable num_sockets sample_list c0 c'.

(** The state in which the load generator calls [load_query_samples]: the
    loop over [range(num_sockets)] is about to start and this call has
    recorded no timestamp. *)
Definition load_entry (num_sockets : nat) (counter : Z) : Coord :=
  mkCoord (Broadcasting num_sockets) [] counter None.

(** ** Shutdown (the tail of [main]) *)

(** The calls [main] makes on queues, processes and threads. *)
Inductive Event :=
| InQueueJoin
| InQueuePut (x : option Item)
| ConsumerJoin (proc_num : nat)
| OutQueuePut (x : option OItem.t)
| ResponseWorkerJoin
| DestroyQSL
| DestroyFastSUT.

(** Lines 564-572, for the list [consumers] of worker indexes. *)
Definition shutdown (consumers : list nat) : list Event :=
  [InQueueJoin]
  ++ map (fun _ => InQueuePut None) consumers
  ++ map ConsumerJoin consumers
  ++ [OutQueuePut None]
  ++ [DestroyQSL; DestroyFastSUT].

(** [main] builds one consumer per socket. *)
Definition consumers (num_sockets : nat) : list nat := seq 0 num_sockets.

(** Every occurrence of [a] in the trace comes before every occurrence of [b]. *)
Definition all_before (tr : list Event) (a b : Event -> Prop) : Prop :=
  forall i j x y, tr !! i = Some x -> tr !! j = Some y -> a x -> b y -> (i < j)%nat.

(** ** Vocabulary of the statements *)

Definition ceil_div (a b : Z) : Z := ((a + b - 1) / b)%Z.

(** The [k]-th contiguous slice of width [B] of a sequence. *)
Definition chunk {A : Type} (B k : nat) (l : list A) : list A :=
  take B (drop (k * B) l).

(** The item [enqueue] builds in turn [k] of its loop. *)
Definition loop_item (bs : Z) (qs idx : list Z) (clock : nat -> Z) (k : nat) : Item :=
  let i := (0 + Z.of_nat k * bs)%Z in
  let ie := Z.min (i + bs) (Z.of_nat (length qs)) in
  mkItem (Py.slice qs i ie) (Py.slice idx i ie) (clock k).

(** What holds at each point of [load_query_samples]: no timestamp before
    the return, [k] puts still to make while broadcasting, and the counter
    at [2 * num_sockets] or above once the timestamp is taken. *)
Definition load_inv (num_sockets : nat) (sample_list : list Z) (c : Coord) : Prop :=
  match pc c with
  | Broadcasting k =>
      start_time c = None
      /\ (k <= num_sockets)%nat
      /\ dsQueue c = replicate (num_sockets - k) sample_list
  | Polling =>
      start_time c = None
      /\ dsQueue c = replicate num_sockets sample_list
  | Returned =>
      dsQueue c = replicate num_sockets sample_list
      /\ (2 * Z.of_nat num_sockets <= init_counter c)%Z
  end.

Definition is_inqueue_join (e : Event) : Prop :=
  match e with InQueueJoin => True | _ => False end.
Definition is_work_sentinel (e : Event) : Prop :=
  match e with InQueuePut None => True | _ => False end.
Definition is_consumer_join (e : Event) : Prop :=
  match e with ConsumerJoin _ => True | _ => False end.
Definition is_result_sentinel (e : Event) : Prop :=
  match e with OutQueuePut None => True | _ => False end.

#[global] Instance is_work_sentinel_dec (e : Event) : Decision (is_work_sentinel e).
Proof. destruct e as [| [x |] | | | | |]; simpl; apply _. Defined.

#[global] Instance is_result_sentinel_dec (e : Event) : Decision (is_result_sentinel e).
Proof. destruct e as [| | | [x |] | | |]; simpl; apply _. Defined.

(** ** A toy dataset and backend, for running the worker on data *)

Module Toy.

(** Sample ref [r] aggregates [r mod 4 + 1] underlying rows. *)
Definition width (r : Z) : nat := S (Z.to_nat (r mod 4)).

Definition rows (refs : list Z) : list Z :=
  concat (map (fun r => replicate (width r) r) refs).

Fixpoint offsets_from (o : Z) (refs : list Z) : list Z :=
  match refs with
  | [] => [o]
  | r :: refs' => o :: offsets_from (o + Z.of_nat (width r)) refs'
  end.

(** The patterns of 1.0 and 0.0. *)
Definition one : f32 := 1065353216%Z.
Definition zero : f32 := 0%Z.

(** The inputs are the refs row by row; the ground truth of a row is 1.0
    for an even ref. *)
Definition get_samples (refs : list Z) : list Z * list f32 * list Z :=
  (rows refs,
   map (fun r => if Z.even r then one else zero) (rows refs),
   offsets_from 0 refs).

(** The backend raises on a negative input and answers 1.0 otherwise. *)
Definition predict (X : list Z) : option (list f32) :=
  if existsb (fun x => (x <? 0)%Z) X then None else Some (map (fun _ => one) X).

(** 0.0 and 1.0 are their own roundings, and equal only to themselves. *)
Definition f32_round (w : f32) : f32 := w.
Definition f32_eqb (a b : f32) : bool := (a =? b)%Z.

Definition run_item := run_item get_samples predict f32_round f32_eqb.
Definition run := run get_samples predict f32_round f32_eqb.

(** Ten queries over twenty-five rows, with spans of widths
    1, 2, 3, 1, 3, 4, 1, 4, 3, 3. *)
Definition ten_queries : Item :=
  mkItem [100; 101; 102; 103; 104; 105; 106; 107; 108; 109]%Z
         [0; 1; 2; 0; 2; 3; 0; 3; 2; 2]%Z 0.

(** Two queries whose prediction raises. *)
Definition poisoned : Item := mkItem [200; 201]%Z [-1; -2]%Z 0.

Definition empty_aggregate : Aggregate := mkAggregate 0 0 [] [] [].

End Toy.

(** ** The thread count of a worker ([Consumer.run], lines 291-294) *)

Definition num_threads (cpus_per_socket : Z) (proc_num : nat) : Z :=
  if (proc_num =? 0)%nat then (cpus_per_socket - 2)%Z else cpus_per_socket.

(** ** More vocabulary *)

(** The batch of responses the collector hands over for one outcome. *)
Definition response_batch (oitem : OItem.t) : list QuerySampleResponse :=
  map (fun '(q_id, arr) => mkResponse q_id arr (length arr))
      (zip (OItem.query_ids oitem) (OItem.array_ref oitem)).

Definition sum_nat (l : list nat) : nat := foldr Nat.add 0%nat l.

(** The collector's globals after a run of outcomes. *)
Definition collect_all (accuracy : bool) (oitems : list OItem.t) (g : Aggregate)
    : Aggregate :=
  foldl (fun g o => collect accuracy o g) g oitems.

(** What the collector has handed over so far, as the sequence of ids. *)
Definition completed_ids (g : Aggregate) : list Z :=
  concat (map (map resp_id) (completed g)).

(** The fields of an outcome that reach the load generator and the counters. *)
Definition answer (oitem : OItem.t) : nat * nat * list Z * list (list byte) :=
  (OItem.good oitem, OItem.total oitem, OItem.query_ids oitem, OItem.array_ref oitem).

(** A dataset answers one span per sample ref. *)
Definition one_span_per_ref {Input : Type}
    (get_samples : list Z -> Input * list f32 * list Z) : Prop :=
  forall refs, length (get_samples refs).2 = S (length refs).

(** ** Startup and the two readiness barriers, workers included *)

(** Where a worker stands in [Consumer.run] before its main loop: in
    [warmup], blocked in [ds_queue.get()], holding the sample list it got
    (it loads it and then takes the lock), or past its second increment. *)
Inductive WorkerPc :=
| Warming
| AwaitingSampleLoad
| Loading (sample_list : list Z)
| Ready (sample_list : list Z).

(** Where [main] stands: in the loop of line 466, between that loop and the
    call of [load_query_samples] by the load generator, or inside that call. *)
Inductive MainPc :=
| WaitWarmup
| Configuring
| LoadSamples (p : LoadPc).

(** [sys_puts] is everything put on [dsQueue]; the first [sys_taken] of
    them have been taken by workers. *)
Record Sys := mkSys {
  main_pc : MainPc;
  sys_workers : list WorkerPc;
  sys_puts : list (list Z);
  sys_taken : nat;
  sys_counter : Z;
  sys_total_samples : Z;
  sys_start_time : option Z
}.

(** One step of [main]; inside [load_query_samples] it is [load_step]. *)
Definition main_step (num_sockets : nat) (sample_list : list Z) (now : Z)
    (s : Sys) : Sys :=
  match main_pc s with
  | WaitWarmup =>
      if (sys_counter s <? Z.of_nat num_sockets)%Z then s
      else mkSys Configuring (sys_workers s) (sys_puts s) (sys_taken s)
                 (sys_counter s) (sys_total_samples s) (sys_start_time s)
  | Configuring =>
      mkSys (LoadSamples (Broadcasting num_sockets)) (sys_workers s) (sys_puts s)
            (sys_taken s) (sys_counter s) (sys_total_samples s) (sys_start_time s)
  | LoadSamples p =>
      let c := load_step num_sockets sample_list now
                 (mkCoord p (sys_puts s) (sys_counter s) (sys_start_time s)) in
      mkSys (LoadSamples (pc c)) (sys_workers s) (dsQueue c) (sys_taken s)
            (init_counter c) (sys_total_samples s) (start_time c)
  end.

(** One step of worker [i], lines 280-283 and 302-306; [None] when the
    worker cannot move (no such worker, nothing on the queue, or already in
    its main loop). *)
Definition consumer_step (item_count : Z) (i : nat) (s : Sys) : option Sys :=
  match sys_workers s !! i with
  | Some Warming =>
      Some (mkSys (main_pc s) (<[i := AwaitingSampleLoad]> (sys_workers s))
                  (sys_puts s) (sys_taken s) (sys_counter s + 1) item_count
                  (sys_start_time s))
  | Some AwaitingSampleLoad =>
      match sys_puts s !! sys_taken s with
      | Some sample_list =>
          Some (mkSys (main_pc s) (<[i := Loading sample_list]> (sys_workers s))
                      (sys_puts s) (S (sys_taken s)) (sys_counter s)
                      (sys_total_samples s) (sys_start_time s))
      | None => None
      end
  | Some (Loading sample_list) =>
      Some (mkSys (main_pc s) (<[i := Ready sample_list]> (sys_workers s))
                  (sys_puts s) (sys_taken s) (sys_counter s + 1)
                  (sys_total_samples s) (sys_start_time s))
  | Some (Ready _) => None
  | None => None
  end.

Inductive sys_step (num_sockets : nat) (sample_list : list Z) (item_count : Z)
    : Sys -> Sys -> Prop :=
| sys_step_main (now : Z) (s : Sys) :
    sys_step num_sockets sample_list item_count s
      (main_step num_sockets sample_list now s)
| sys_step_consumer (i : nat) (s s' : Sys) :
    consumer_step item_count i s = Some s' ->
    sys_step num_sockets sample_list item_count s s'.

Inductive sys_reachable (num_sockets : nat) (sample_list : list Z) (item_count : Z)
    (s0 : Sys) : Sys -> Prop :=
| sys_reach_refl : sys_reachable num_sockets sample_list item_count s0 s0
| sys_reach_step (s s' : Sys) :
    sys_reachable num_sockets sample_list item_count s0 s ->
    sys_step num_sockets sample_list item_count s s' ->
    sys_reachable num_sockets sample_list item_count s0 s'.

(** [main] after [c.start()] for every consumer: both shared values are 0. *)
Definition sys_init (num_sockets : nat) : Sys :=
  mkSys WaitWarmup (replicate num_sockets Warming) [] 0 0 0 None.

(** How often a worker has incremented [init_counter]. *)
Definition increments (w : WorkerPc) : Z :=
  match w with
  | Warming => 0
  | AwaitingSampleLoad => 1
  | Loading _ => 1
  | Ready _ => 2
  end.

Definition sum_Z (l : list Z) : Z := foldr Z.add 0%Z l.

Definition warmed (w : WorkerPc) : Prop :=
  match w with Warming => False | _ => True end.

Definition holds (sample_list : list Z) (w : WorkerPc) : Prop :=
  match w with
  | Loading sl => sl = sample_list
  | Ready sl => sl = sample_list
  | _ => True
  end.

Definition before_puts (w : WorkerPc) : Prop :=
  match w with
  | Loading _ => False
  | Ready _ => False
  | _ => True
  end.

(** The invariant of the startup protocol. *)
Definition sys_inv (num_sockets : nat) (sample_list : list Z) (item_count : Z)
    (s : Sys) : Prop :=
  length (sys_workers s) = num_sockets
  /\ sys_counter s = sum_Z (map increments (sys_workers s))
  /\ Forall (holds sample_list) (sys_workers s)
  /\ (Exists warmed (sys_workers s) -> sys_total_samples s = item_count)
  /\ (sys_puts s = [] -> Forall before_puts (sys_workers s))
  /\ match main_pc s with
     | WaitWarmup =>
         sys_puts s = [] /\ sys_start_time s = None
     | Configuring =>
         sys_puts s = [] /\ sys_start_time s = None
         /\ Forall warmed (sys_workers s)
     | LoadSamples p =>
         Forall warmed (sys_workers s)
         /\ match p with
            | Broadcasting k =>
                sys_start_time s = None /\ (k <= num_sockets)%nat
                /\ sys_puts s = replicate (num_sockets - k) sample_list
            | Polling =>
                sys_start_time s = None
                /\ sys_puts s = replicate num_sockets sample_list
            | Returned =>
                sys_puts s = replicate num_sockets sample_list
                /\ (2 * Z.of_nat num_sockets <= sys_counter s)%Z
            end
     end.

(** A dataset that hands out a ground truth one row short of the inputs. *)
Definition short_truth (refs : list Z) : list Z * list f32 * list Z :=
  (Toy.rows refs,
   removelast (map (fun r => if Z.even r then Toy.one else Toy.zero) (Toy.rows refs)),
   Toy.offsets_from 0 refs).

(** ** Command-line resolution ([get_args], after [parse_args]) *)

(** The values an attribute of the parsed arguments takes here. *)
Inductive Value :=
| VStr (s : string)
| VInt (z : Z)
| VList (l : list string).

(** A Python dict, in insertion order. *)
Fixpoint dict_get {V : Type} (k : string) (d : list (string * V)) : option V :=
  match d with
  | [] => None
  | (k', v) :: d' => if String.eqb k k' then Some v else dict_get k d'
  end.

(** [d[k] = v]: in place for a key the dict has, at the end otherwise. *)
Fixpoint dict_set {V : Type} (k : string) (v : V) (d : list (string * V))
    : list (string * V) :=
  match d with
  | [] => [(k, v)]
  | (k', v') :: d' =>
      if String.eqb k k' then (k, v) :: d' else (k', v') :: dict_set k v d'
  end.

(** [d.update(other)]. *)
Definition dict_update {V : Type} (d other : list (string * V))
    : list (string * V) :=
  foldl (fun acc kv => dict_set kv.1 kv.2 acc) d other.

Definition SUPPORTED_PROFILES : list (string * list (string * Value)) :=
  [("defaults"%string,
    [("dataset"%string, VStr "terabyte");
     ("inputs"%string, VStr "continuous and categorical features");
     ("outputs"%string, VStr "probability");
     ("backend"%string, VStr "pytorch-native");
     ("model"%string, VStr "dlrm");
     ("max-batchsize"%string, VInt 2048)]);
   ("dlrm-kaggle-pytorch"%string,
    [("dataset"%string, VStr "kaggle");
     ("inputs"%string, VStr "continuous and categorical features");
     ("outputs"%string, VStr "probability");
     ("backend"%string, VStr "pytorch-native");
     ("model"%string, VStr "dlrm");
     ("max-batchsize"%string, VInt 128)]);
   ("dlrm-terabyte-pytorch"%string,
    [("dataset"%string, VStr "terabyte");
     ("inputs"%string, VStr "continuous and categorical features");
     ("outputs"%string, VStr "probability");
     ("backend"%string, VStr "pytorch-native");
     ("model"%string, VStr "dlrm");
     ("max-batchsize"%string, VInt 2048)])].

(** [lg.TestScenario]. *)
Inductive TestScenario := SingleStream | MultiStream | Server | Offline.

Definition SCENARIO_MAP : list (string * TestScenario) :=
  [("SingleStream"%string, SingleStream); ("MultiStream"%string, MultiStream);
   ("Server"%string, Server); ("Offline"%string, Offline)].

(** [s.replace(old, new)] for one-character [old] and [new]. *)
Fixpoint replace_char (old new : Ascii.ascii) (s : string) : string :=
  match s with
  | EmptyString => EmptyString
  | String c s' =>
      String (if Ascii.eqb c old then new else c) (replace_char old new s')
  end.

(** [s.split(sep)] for a one-character [sep]. *)
Fixpoint split (sep : Ascii.ascii) (s : string) : list string :=
  match s with
  | EmptyString => [EmptyString]
  | String c s' =>
      if Ascii.eqb c sep then EmptyString :: split sep s'
      else match split sep s' with
           | piece :: pieces => String c piece :: pieces
           | [] => [String c EmptyString]
           end
  end.

(** Truth value of an attribute; an attribute that is [None] is absent
    from the map. *)
Definition truthy (v : option Value) : bool :=
  match v with
  | None => false
  | Some (VStr s) => negb (String.eqb s "")
  | Some (VInt z) => negb (z =? 0)%Z
  | Some (VList l) => match l with [] => false | _ => true end
  end.

(** The loop [for k, v in defaults.items()]. *)
Definition fill_defaults (defaults : list (string * Value))
    (args : gmap string Value) : gmap string Value :=
  foldl (fun a kv =>
           let kc := replace_char "-"%char "_"%char kv.1 in
           match a !! kc with
           | None => <[kc := kv.2]> a
           | Some _ => a
           end) args defaults.

(** [if args.name: args.name = args.name.split(",")]; only a string has
    [split]. *)
Definition split_arg (name : string) (args : gmap string Value)
    : option (gmap string Value) :=
  if truthy (args !! name) then
    match args !! name with
    | Some (VStr s) => Some (<[name := VList (split ","%char s)]> args)
    | _ => None
    end
  else Some args.

(** [get_args] from the parsed arguments on, with the global
    [SUPPORTED_PROFILES] as state: [defaults] is the dict stored there, so
    [defaults.update(profile)] changes the global too. [None] stands for a
    raise or for [parser.error]. *)
Definition get_args (profiles : list (string * list (string * Value)))
    (args : gmap string Value)
    : option (list (string * list (string * Value)) * gmap string Value) :=
  defaults ← dict_get "defaults" profiles;
  chosen ← (if truthy (args !! "profile"%string) then
               match args !! "profile"%string with
               | Some (VStr p) =>
                   profile ← dict_get p profiles;
                   Some (dict_update defaults profile)
               | _ => None
               end
             else Some defaults);
  let profiles' := dict_set "defaults" chosen profiles in
  let args1 := fill_defaults chosen args in
  args2 ← split_arg "inputs" args1;
  args3 ← split_arg "outputs" args2;
  match args3 !! "scenario"%string with
  | Some (VStr sc) =>
      match dict_get sc SCENARIO_MAP with
      | Some _ => Some (profiles', args3)
      | None => None
      end
  | _ => None
  end.

(** The profile the defaults are taken from, on the first call. *)
Definition chosen_profile (args : gmap string Value)
    : option (list (string * Value)) :=
  if truthy (args !! "profile"%string) then
    match args !! "profile"%string with
    | Some (VStr p) => dict_get p SUPPORTED_PROFILES
    | _ => None
    end
  else dict_get "defaults" SUPPORTED_PROFILES.

(** A profile of the table by name. *)
Definition profile_of (name : string) : list (string * Value) :=
  default [] (dict_get name SUPPORTED_PROFILES).

(** Whether a character occurs in a string. *)
Fixpoint contains (c : Ascii.ascii) (s : string) : bool :=
  match s with
  | EmptyString => false
  | String c' s' => if Ascii.eqb c' c then true else contains c s'
  end.

(** The attribute name of a key of the defaults. *)
Definition attr (k : string) : string := replace_char "-"%char "_"%char k.

(** What the split leaves of a value: a non-empty string becomes the list
    of its pieces. *)
Definition split_value (v : Value) : Value :=
  match v with
  | VStr s => if String.eqb s "" then v else VList (split ","%char s)
  | _ => v
  end.

(** [main], lines 474-480: the scenario and its runner. [runner_map] has
    entries for [Server] and [Offline] only. *)
Definition runner_map (scenario : TestScenario)
    : option (TaskQueue -> Z -> QueueRunner) :=
  match scenario with
  | Server => Some mkQueueRunner
  | Offline => Some mkQueueRunner
  | _ => None
  end.

Definition make_runner (scenario_name : string) (inQueue : TaskQueue)
    (max_batchsize : Z) : option QueueRunner :=
  scenario ← dict_get scenario_name SCENARIO_MAP;
  runner ← runner_map scenario;
  Some (runner inQueue max_batchsize).

(** ** Backend selection ([get_backend]) *)

(** The arguments handed to [BackendPytorchNative]; [use_ipex] is passed in
    one branch only. *)
Record BackendPytorchNative := mkBackend {
  m_spa : Z;
  ln_emb : list Z;
  ln_bot : list Z;
  ln_top : list Z;
  use_gpu : bool;
  use_ipex : option bool
}.

(** The result is the backend or the message of the [ValueError]. *)
Definition get_backend {F : Type} (backend dataset : string) (max_ind_range : Z)
    (data_sub_sample_rate : F) (gpu ipex : bool)
    : BackendPytorchNative + string :=
  if String.eqb backend "pytorch-native" then
    if String.eqb dataset "kaggle" then
      inl (mkBackend 16
             [1460; 583; 10131227; 2202608; 305; 24; 12517; 633; 3; 93145; 5683;
              8351593; 3194; 27; 14992; 5461306; 10; 5652; 2173; 4; 7046547; 18;
              15; 286181; 105; 142572]%Z
             [13; 512; 256; 64; 16]%Z
             [367; 512; 256; 1]%Z
             gpu None)
    else if String.eqb dataset "terabyte" then
      if (max_ind_range =? 10000000)%Z then
        inl (mkBackend 64
               [9980333; 36084; 17217; 7378; 20134; 3; 7112; 1442; 61; 9758201;
                1333352; 313829; 10; 2208; 11156; 122; 4; 970; 14; 9994222;
                7267859; 9946608; 415421; 12420; 101; 36]%Z
               [13; 512; 256; 64]%Z
               [415; 512; 512; 256; 1]%Z
               gpu None)
      else if (max_ind_range =? 40000000)%Z then
        inl (mkBackend 128
               [39884406; 39043; 17289; 7420; 20263; 3; 7120; 1543; 63; 38532951;
                2953546; 403346; 10; 2208; 11938; 155; 4; 976; 14; 39979771;
                25641295; 39664984; 585935; 12972; 108; 36]%Z
               [13; 512; 256; 128]%Z
               [479; 1024; 1024; 512; 256; 1]%Z
               gpu (Some ipex))
      else inr "only --max-in-range 10M or 40M is supported"%string
    else inr "only kaggle|terabyte dataset options are supported"%string
  else inr ("unknown backend: " ++ backend)%string.

(** * Properties *)

(** ** Slices and ranges *)

Lemma slice_bound_nonneg (n i : Z) :
  (0 <= i)%Z -> Py.slice_bound n i = Z.min i n.
Proof.
  intros Hi. unfold Py.slice_bound.
  destruct (Z.ltb_spec i 0); [lia | reflexivity].
Qed.

Lemma slice_within {A : Type} (l : list A) (s e : Z) :
  (0 <= s <= e)%Z -> (e <= Z.of_nat (length l))%Z ->
  Py.slice l s e = take (Z.to_nat e - Z.to_nat s) (drop (Z.to_nat s) l).
Proof.
  intros Hse He. unfold Py.slice.
  rewrite !slice_bound_nonneg by lia.
  rewrite !Z.min_l by lia.
  f_equal. lia.
Qed.

Lemma slice_length_within {A : Type} (l : list A) (s e : Z) :
  (0 <= s <= e)%Z -> (e <= Z.of_nat (length l))%Z ->
  Z.of_nat (length (Py.slice l s e)) = (e - s)%Z.
Proof.
  intros Hse He. rewrite slice_within by assumption.
  rewrite length_take, length_drop. lia.
Qed.

Lemma slice_whole {A : Type} (l : list A) (e : Z) :
  (Z.of_nat (length l) <= e)%Z -> Py.slice l 0 e = l.
Proof.
  intros He. unfold Py.slice.
  rewrite !slice_bound_nonneg by lia.
  rewrite (Z.min_l 0), (Z.min_r e) by lia.
  rewrite Z.sub_0_r, Nat2Z.id. simpl. rewrite drop_0.
  apply take_ge. lia.
Qed.

Lemma take_clip {A : Type} (n : nat) (l : list A) :
  take (Nat.min n (length l)) l = take n l.
Proof.
  destruct (Nat.le_ge_cases n (length l)).
  - rewrite Nat.min_l; auto.
  - rewrite Nat.min_r by assumption. rewrite !take_ge; auto.
Qed.

Lemma slice_chunk {A : Type} (l : list A) (B k : nat) (n : Z) :
  (0 < B)%nat -> (Z.of_nat (length l) <= n)%Z ->
  Py.slice l (Z.of_nat k * Z.of_nat B) (Z.min (Z.of_nat k * Z.of_nat B + Z.of_nat B) n)
  = chunk B k l.
Proof.
  intros HB Hn. unfold chunk, Py.slice.
  rewrite <- Nat2Z.inj_mul.
  rewrite !slice_bound_nonneg by lia.
  set (len := length l) in *.
  rewrite <- (take_clip B (drop (k * B) l)), length_drop. fold len.
  destruct (Nat.le_ge_cases (k * B) len) as [Hk | Hk].
  - rewrite (Z.min_l (Z.of_nat (k * B))) by lia. rewrite Nat2Z.id.
    f_equal. lia.
  - rewrite (Z.min_r (Z.of_nat (k * B))) by lia. rewrite Nat2Z.id.
    rewrite !(drop_ge l) by (fold len; lia).
    now rewrite !take_nil.
Qed.

Lemma concat_chunks {A : Type} (B : nat) (l : list A) (c : nat) :
  concat (map (fun k => chunk B k l) (seq 0 c)) = take (c * B) l.
Proof.
  induction c as [| c IH].
  - reflexivity.
  - rewrite seq_S, map_app, concat_app, IH. simpl.
    rewrite app_nil_r. unfold chunk.
    rewrite take_take_drop. f_equal. lia.
Qed.

Lemma range_len_forward (n B : Z) :
  (0 < B)%Z -> (0 < n)%Z -> Py.range_len 0 n B = ceil_div n B.
Proof.
  intros HB Hn. unfold Py.range_len, ceil_div.
  destruct (Z.ltb_spec 0 B); [| lia].
  destruct (Z.ltb_spec 0 n); [| lia].
  rewrite Z.sub_0_r.
  replace (n + B - 1)%Z with (n - 1 + 1 * B)%Z by lia.
  rewrite Z.div_add by lia. reflexivity.
Qed.

Lemma ceil_div_covers (n B : Z) :
  (0 < B)%Z -> (n <= ceil_div n B * B)%Z.
Proof.
  intros HB. unfold ceil_div.
  pose proof (Z.div_mod (n + B - 1) B ltac:(lia)) as Hdm.
  pose proof (Z.mod_pos_bound (n + B - 1) B HB). nia.
Qed.

Lemma ceil_div_pos (n B : Z) :
  (0 < B)%Z -> (0 < n)%Z -> (0 < ceil_div n B)%Z.
Proof.
  intros HB Hn. unfold ceil_div.
  apply Z.div_str_pos. lia.
Qed.

(** ** The dispatch front-end *)

Lemma enqueue_loop_spec (bs n : Z) (qs idx : list Z) (clock : nat -> Z)
    (steps : list Z) :
  forall (k : nat) (q : TaskQueue),
    enqueue_loop bs n qs idx clock k steps q
    = q ++ imap (fun j i =>
                   Some (mkItem (Py.slice qs i (Z.min (i + bs) n))
                                (Py.slice idx i (Z.min (i + bs) n))
                                (clock (k + j)%nat))) steps.
Proof.
  induction steps as [| i steps IH]; intros k q.
  - simpl. now rewrite app_nil_r.
  - simpl. rewrite IH. unfold put. rewrite <- app_assoc. simpl.
    rewrite Nat.add_0_r. do 2 f_equal.
    apply imap_ext. intros j x _. simpl.
    now replace (k + S j)%nat with (S (k + j)) by lia.
Qed.

Lemma imap_map_seq0 {A B : Type} (f : nat -> A -> B) (g : nat -> A) (c : nat) :
  imap (fun j x => f (0 + j)%nat x) (map g (seq 0 c))
  = map (fun k => f k (g k)) (seq 0 c).
Proof.
  apply list_eq. intros j.
  rewrite list_lookup_imap, !list_lookup_fmap.
  destruct (decide (j < c)%nat) as [Hj | Hj].
  - rewrite lookup_seq_lt by assumption. reflexivity.
  - rewrite lookup_seq_ge by lia. reflexivity.
Qed.

(** Above the threshold the queue receives one [loop_item] per turn. *)
Lemma enqueue_large (self : QueueRunner) (clock : nat -> Z) (qs idx : list Z) :
  (0 < max_batchsize self)%Z ->
  (max_batchsize self <= Z.of_nat (length qs))%Z ->
  enqueue self clock qs idx
  = Some (mkQueueRunner
            (inQueue self
             ++ map (fun k => Some (loop_item (max_batchsize self) qs idx clock k))
                    (seq 0 (Z.to_nat (ceil_div (Z.of_nat (length qs))
                                               (max_batchsize self)))))
            (max_batchsize self)).
Proof.
  intros HB Hlen. unfold enqueue.
  destruct (Z.ltb_spec (Z.of_nat (length qs)) (max_batchsize self)); [lia |].
  unfold Py.range3. destruct (Z.eqb_spec (max_batchsize self) 0); [lia |].
  rewrite range_len_forward by lia.
  rewrite enqueue_loop_spec. do 3 f_equal.
  exact (imap_map_seq0
           (fun j i =>
              Some (mkItem
                      (Py.slice qs i (Z.min (i + max_batchsize self)
                                            (Z.of_nat (length qs))))
                      (Py.slice idx i (Z.min (i + max_batchsize self)
                                             (Z.of_nat (length qs))))
                      (clock j)))
           (fun k : nat => (0 + Z.of_nat k * max_batchsize self)%Z) _).
Qed.

Lemma chunk_length {A : Type} (B k : nat) (l : list A) :
  length (chunk B k l) = Nat.min B (length l - k * B).
Proof. unfold chunk. now rewrite length_take, length_drop. Qed.

Lemma chunk_first_whole {A : Type} (B : nat) (l : list A) :
  (length l <= B)%nat -> chunk B 0 l = l.
Proof. intros H. unfold chunk. simpl. rewrite drop_0. now apply take_ge. Qed.

Lemma loop_item_chunk (bs : Z) (qs idx : list Z) (clock : nat -> Z) (k : nat) :
  (0 < bs)%Z -> length qs = length idx ->
  loop_item bs qs idx clock k
  = mkItem (chunk (Z.to_nat bs) k qs) (chunk (Z.to_nat bs) k idx) (clock k).
Proof.
  intros Hbs Hlen. unfold loop_item. rewrite Z.add_0_l.
  pose proof (Z2Nat.id bs ltac:(lia)) as Hid.
  pose proof (slice_chunk qs (Z.to_nat bs) k (Z.of_nat (length qs))
                ltac:(lia) ltac:(lia)) as Hq.
  pose proof (slice_chunk idx (Z.to_nat bs) k (Z.of_nat (length qs))
                ltac:(lia) ltac:(lia)) as Hi.
  rewrite Hid in Hq, Hi. now rewrite Hq, Hi.
Qed.

Lemma ceil_div_one (n B : Z) :
  (0 < n <= B)%Z -> ceil_div n B = 1%Z.
Proof.
  intros H. unfold ceil_div. symmetry.
  apply Z.div_unique with (r := (n - 1)%Z); lia.
Qed.

(** With a positive threshold and a non-empty, aligned batch, both branches
    of [enqueue] push the consecutive chunks of width [max_batchsize]. *)
Lemma enqueue_pushes_chunks (self : QueueRunner) (clock : nat -> Z) (qs idx : list Z) :
  (0 < max_batchsize self)%Z -> qs <> [] -> length qs = length idx ->
  enqueue self clock qs idx
  = Some (mkQueueRunner
            (inQueue self
             ++ map Some
                  (map (fun k => mkItem (chunk (Z.to_nat (max_batchsize self)) k qs)
                                        (chunk (Z.to_nat (max_batchsize self)) k idx)
                                        (clock k))
                       (seq 0 (Z.to_nat (ceil_div (Z.of_nat (length qs))
                                                  (max_batchsize self))))))
            (max_batchsize self)).
Proof.
  intros HB Hne Hlen.
  assert (0 < length qs)%nat as Hpos by (destruct qs; [congruence | simpl; lia]).
  destruct (Z.lt_ge_cases (Z.of_nat (length qs)) (max_batchsize self)) as [Hlt | Hge].
  - unfold enqueue.
    destruct (Z.ltb_spec (Z.of_nat (length qs)) (max_batchsize self)); [| lia].
    rewrite ceil_div_one by lia. simpl.
    rewrite !chunk_first_whole by lia. reflexivity.
  - rewrite enqueue_large by lia. do 3 f_equal.
    rewrite map_map. apply map_ext. intros k.
    now rewrite loop_item_chunk.
Qed.

(** C2. For a positive maximum batch size B and equal-length, non-empty
    query_ids and sample_refs, [enqueue] pushes ceil(len/B) work items; the
    k-th one carries the contiguous slice of width at most B that starts at
    k*B (of the query ids and of the sample refs alike), a batch of length at
    most B goes as one item holding the whole batch, the pushed query-id
    (and sample-ref) slices concatenated in push order give back the
    original sequence, and a batch of 5000 with B = 2048 goes as three items
    of sizes 2048, 2048 and 904. *)
Theorem enqueue_splits_in_order (self : QueueRunner) (clock : nat -> Z)
    (qs idx : list Z) :
  (0 < max_batchsize self)%Z -> qs <> [] -> length qs = length idx ->
  exists items : list Item,
    enqueue self clock qs idx
    = Some (mkQueueRunner (inQueue self ++ map Some items) (max_batchsize self))
    /\ Z.of_nat (length items)
       = ceil_div (Z.of_nat (length qs)) (max_batchsize self)
    /\ (forall k it, items !! k = Some it ->
          query_id it = chunk (Z.to_nat (max_batchsize self)) k qs
          /\ content_id it = chunk (Z.to_nat (max_batchsize self)) k idx
          /\ (0 < Z.of_nat (length (query_id it)) <= max_batchsize self)%Z
          /\ length (content_id it) = length (query_id it))
    /\ ((Z.of_nat (length qs) <= max_batchsize self)%Z ->
          items = [mkItem qs idx (clock 0%nat)])
    /\ concat (map query_id items) = qs
    /\ concat (map content_id items) = idx
    /\ (Z.of_nat (length qs) = 5000%Z -> max_batchsize self = 2048%Z ->
          map (fun it => Z.of_nat (length (query_id it))) items
          = [2048; 2048; 904]%Z).
Proof.
  intros HB Hne Hlen.
  set (B := Z.to_nat (max_batchsize self)).
  set (n := Z.of_nat (length qs)).
  set (c := Z.to_nat (ceil_div n (max_batchsize self))).
  assert (0 < n)%Z as Hn by (subst n; destruct qs; [congruence | simpl; lia]).
  pose proof (ceil_div_covers n _ HB) as Hcover.
  pose proof (ceil_div_pos n _ HB Hn) as Hcpos.
  exists (map (fun k => mkItem (chunk B k qs) (chunk B k idx) (clock k)) (seq 0 c)).
  split; [now apply enqueue_pushes_chunks |].
  split; [rewrite length_map, length_seq; subst c; lia |].
  split.
  { intros k it Hk.
    rewrite list_lookup_fmap in Hk.
    destruct (decide (k < c)%nat) as [Hkc | Hkc].
    2:{ rewrite lookup_seq_ge in Hk by lia. discriminate. }
    rewrite lookup_seq_lt in Hk by assumption. simpl in Hk.
    injection Hk as <-. simpl.
    rewrite !chunk_length, <- Hlen.
    repeat split; try reflexivity; try lia.
    assert (Z.of_nat k * max_batchsize self < n)%Z.
    { unfold ceil_div in *.
      pose proof (Z.div_mod (n + max_batchsize self - 1) (max_batchsize self)
                    ltac:(lia)).
      pose proof (Z.mod_pos_bound (n + max_batchsize self - 1) _ HB).
      subst c. nia. }
    subst B n. nia. }
  split.
  { intros Hle. subst c. rewrite ceil_div_one by lia. simpl.
    rewrite !chunk_first_whole by (subst B n; lia). reflexivity. }
  split.
  { rewrite map_map. simpl. rewrite concat_chunks.
    apply take_ge. subst B c n. nia. }
  split.
  { rewrite map_map. simpl. rewrite concat_chunks.
    apply take_ge. rewrite <- Hlen. subst B c n. nia. }
  intros H5000 H2048. subst c B n. rewrite H5000, H2048.
  change (Z.to_nat (ceil_div 5000 2048)) with 3%nat. simpl map.
  rewrite !chunk_length.
  repeat f_equal; lia.
Qed.

Lemma enqueue_splits_in_order_witness :
  (0 < max_batchsize (mkQueueRunner [] 2))%Z
  /\ [7; 8; 9; 10; 11]%Z <> []
  /\ length [7; 8; 9; 10; 11]%Z = length [70; 80; 90; 100; 110]%Z
  /\ exists items : list Item,
       enqueue (mkQueueRunner [] 2) (fun _ => 0%Z)
               [7; 8; 9; 10; 11]%Z [70; 80; 90; 100; 110]%Z
       = Some (mkQueueRunner (map Some items) 2)
       /\ Z.of_nat (length items) = 3%Z
       /\ concat (map query_id items) = [7; 8; 9; 10; 11]%Z.
Proof.
  assert (0 < max_batchsize (mkQueueRunner [] 2))%Z as H1 by (simpl; lia).
  assert ([7; 8; 9; 10; 11]%Z <> []) as H2 by discriminate.
  assert (length [7; 8; 9; 10; 11]%Z = length [70; 80; 90; 100; 110]%Z) as H3
    by reflexivity.
  destruct (enqueue_splits_in_order (mkQueueRunner [] 2) (fun _ => 0%Z)
              [7; 8; 9; 10; 11]%Z [70; 80; 90; 100; 110]%Z H1 H2 H3)
    as (items & He & Hc & _ & _ & Hq & _).
  repeat split; try assumption.
  exists items. repeat split; assumption.
Defined.

(** The scenario of the specification, run on the code: 5000 query ids with
    a maximum batch size of 2048. *)
Example enqueue_5000_by_2048 :
  (fun r => match r with
            | Some r' =>
                map (fun o => match o with
                              | Some it => (length (query_id it), length (content_id it))
                              | None => (0, 0)%nat
                              end) (inQueue r')
            | None => []
            end)
    (enqueue (mkQueueRunner [] 2048) (fun _ => 0%Z) (seqZ 0 5000) (seqZ 7000 5000))
  = [(2048, 2048); (2048, 2048); (904, 904)]%nat.
Proof. vm_compute. reflexivity. Qed.

(** A maximum batch size of zero makes [range] raise, and a negative one
    makes the loop run no turn: nothing is pushed. *)
Example enqueue_zero_batchsize_raises :
  enqueue (mkQueueRunner [] 0) (fun _ => 0%Z) [1; 2]%Z [10; 20]%Z = None.
Proof. reflexivity. Qed.

Example enqueue_negative_batchsize_pushes_nothing :
  enqueue (mkQueueRunner [] (-1)) (fun _ => 0%Z) [1; 2]%Z [10; 20]%Z
  = Some (mkQueueRunner [] (-1)).
Proof. reflexivity. Qed.

(** C10. With a positive maximum batch size, [enqueue] of an empty
    query-id sequence (and an empty sample-ref sequence) does not fail: it
    pushes exactly one work item, whose two sequences are empty. *)
Theorem enqueue_empty_pushes_one_empty_item (self : QueueRunner) (clock : nat -> Z) :
  (0 < max_batchsize self)%Z ->
  enqueue self clock [] []
  = Some (mkQueueRunner (inQueue self ++ [Some (mkItem [] [] (clock 0%nat))])
                        (max_batchsize self)).
Proof.
  intros HB. unfold enqueue. simpl length.
  destruct (Z.ltb_spec (Z.of_nat 0) (max_batchsize self)); [reflexivity | lia].
Qed.

Lemma enqueue_empty_pushes_one_empty_item_witness :
  (0 < max_batchsize (mkQueueRunner [] 2048))%Z
  /\ enqueue (mkQueueRunner [] 2048) (fun _ => 5%Z) [] []
     = Some (mkQueueRunner [Some (mkItem [] [] 5)] 2048).
Proof.
  assert (0 < max_batchsize (mkQueueRunner [] 2048))%Z as H by (simpl; lia).
  split; [exact H |].
  exact (enqueue_empty_pushes_one_empty_item (mkQueueRunner [] 2048) (fun _ => 5%Z) H).
Defined.

(** Against C4 as stated: three query ids with two sample refs do not make
    [enqueue] fail; the misaligned batch is put on the work queue as it is. *)
Lemma enqueue_accepts_mismatched_lengths :
  length [1; 2; 3]%Z <> length [10; 20]%Z
  /\ enqueue (mkQueueRunner [] 128) (fun _ => 0%Z) [1; 2; 3]%Z [10; 20]%Z
     = Some (mkQueueRunner [Some (mkItem [1; 2; 3] [10; 20] 0)]%Z 128).
Proof. split; [simpl; lia | reflexivity]. Qed.

(** C4, amended. [enqueue] compares no lengths: with a positive maximum
    batch size and query ids and sample refs of different lengths it
    returns normally and pushes at least one work item, and below the
    maximum batch size the one item pushed carries the two mismatched
    sequences unchanged. *)
Theorem enqueue_checks_no_lengths (self : QueueRunner) (clock : nat -> Z)
    (qs idx : list Z) :
  (0 < max_batchsize self)%Z -> length qs <> length idx ->
  exists items : list Item,
    enqueue self clock qs idx
    = Some (mkQueueRunner (inQueue self ++ map Some items) (max_batchsize self))
    /\ items <> []
    /\ ((Z.of_nat (length qs) < max_batchsize self)%Z ->
          items = [mkItem qs idx (clock 0%nat)]).
Proof.
  intros HB _.
  destruct (Z.lt_ge_cases (Z.of_nat (length qs)) (max_batchsize self)) as [Hlt | Hge].
  - exists [mkItem qs idx (clock 0%nat)]. unfold enqueue.
    destruct (Z.ltb_spec (Z.of_nat (length qs)) (max_batchsize self)); [| lia].
    split; [reflexivity |]. split; [discriminate | reflexivity].
  - exists (map (fun k => loop_item (max_batchsize self) qs idx clock k)
                (seq 0 (Z.to_nat (ceil_div (Z.of_nat (length qs))
                                           (max_batchsize self))))).
    rewrite enqueue_large by lia. rewrite map_map.
    split; [reflexivity |]. split; [| lia].
    pose proof (ceil_div_pos (Z.of_nat (length qs)) _ HB ltac:(lia)) as Hc.
    destruct (Z.to_nat (ceil_div (Z.of_nat (length qs)) (max_batchsize self)))
      eqn:E; [lia | discriminate].
Qed.

Lemma enqueue_checks_no_lengths_witness :
  (0 < max_batchsize (mkQueueRunner [] 2))%Z
  /\ length [1; 2; 3]%Z <> length [10; 20]%Z
  /\ exists items : list Item,
       enqueue (mkQueueRunner [] 2) (fun _ => 0%Z) [1; 2; 3]%Z [10; 20]%Z
       = Some (mkQueueRunner (map Some items) 2)
       /\ items <> [].
Proof.
  assert (0 < max_batchsize (mkQueueRunner [] 2))%Z as H1 by (simpl; lia).
  assert (length [1; 2; 3]%Z <> length [10; 20]%Z) as H2 by (simpl; lia).
  destruct (enqueue_checks_no_lengths (mkQueueRunner [] 2) (fun _ => 0%Z)
              [1; 2; 3]%Z [10; 20]%Z H1 H2) as (items & He & Hne & _).
  repeat split; try assumption.
  exists items. split; assumption.
Defined.

(** ** CPU affinity *)

Lemma elem_of_range (a b x : Z) : x ∈ Py.range a b <-> (a <= x < b)%Z.
Proof. unfold Py.range. rewrite elem_of_seqZ. lia. Qed.

Lemma elem_of_affinity (c : Z) (i : nat) (x : Z) :
  x ∈ affinity c i
  <-> if decide (i = 0%nat) then (2 <= x < c)%Z
      else (Z.of_nat i * c <= x < (Z.of_nat i + 1) * c)%Z.
Proof.
  unfold affinity, Py.round.
  destruct i as [| i]; simpl Nat.eqb; cbv iota.
  - rewrite elem_of_range. destruct (decide (0%nat = 0%nat)); [reflexivity | congruence].
  - rewrite elem_of_range. destruct (decide (S i = 0%nat)); [discriminate | reflexivity].
Qed.

(** C7. The affinity of a worker is a function of its index and of the
    per-socket core count alone: worker 0 gets the cores [2, cpus_per_socket)
    (cores 0 and 1 stay free), a worker i > 0 gets
    [i*cpus_per_socket, (i+1)*cpus_per_socket), and two distinct workers
    share no core. *)
Theorem affinity_ranges_disjoint (cpus_per_socket : Z) :
  affinity cpus_per_socket 0 = Py.range 2 cpus_per_socket
  /\ (forall x, x ∈ affinity cpus_per_socket 0 <-> (2 <= x < cpus_per_socket)%Z)
  /\ (forall i, i <> 0%nat ->
        affinity cpus_per_socket i
        = Py.range (Z.of_nat i * cpus_per_socket)
                   ((Z.of_nat i + 1) * cpus_per_socket))
  /\ (forall i x, i <> 0%nat ->
        x ∈ affinity cpus_per_socket i
        <-> (Z.of_nat i * cpus_per_socket <= x
             < (Z.of_nat i + 1) * cpus_per_socket)%Z)
  /\ (forall i j x, i <> j ->
        x ∈ affinity cpus_per_socket i -> x ∉ affinity cpus_per_socket j).
Proof.
  split; [reflexivity |].
  split; [intros x; now rewrite elem_of_affinity |].
  split.
  { intros [| i] Hi; [congruence | reflexivity]. }
  split.
  { intros i x Hi. rewrite elem_of_affinity.
    destruct (decide (i = 0%nat)); [congruence | reflexivity]. }
  intros i j x Hij Hi Hj.
  rewrite elem_of_affinity in Hi, Hj.
  destruct (decide (i = 0%nat)), (decide (j = 0%nat)); try lia; nia.
Qed.

Lemma affinity_ranges_disjoint_witness :
  0%nat <> 1%nat
  /\ 5%Z ∈ affinity 28 0
  /\ 5%Z ∉ affinity 28 1.
Proof.
  assert (0%nat <> 1%nat) as H1 by discriminate.
  assert (5%Z ∈ affinity 28 0) as H2
    by (apply (proj1 (proj2 (affinity_ranges_disjoint 28))); lia).
  split; [exact H1 |]. split; [exact H2 |].
  exact (proj2 (proj2 (proj2 (proj2 (affinity_ranges_disjoint 28)))) 0%nat 1%nat 5%Z
               H1 H2).
Defined.

(** ** Byte payloads *)

Lemma f32_tobytes_length (w : f32) : length (f32_tobytes w) = 4%nat.
Proof. reflexivity. Qed.

Lemma row_bytes_length (r : list f32) :
  length (concat (map f32_tobytes r)) = (4 * length r)%nat.
Proof.
  induction r as [| w r IH]; [reflexivity |].
  cbn [map concat]. rewrite length_app, IH, f32_tobytes_length.
  cbn [length]. lia.
Qed.

Lemma tobytes_length (w : nat) (rows : list (list f32)) :
  Forall (fun r => length r = w) rows ->
  length (tobytes rows) = (4 * w * length rows)%nat.
Proof.
  unfold tobytes. induction 1 as [| r rows Hr _ IH]; [simpl; lia |].
  cbn [map concat]. rewrite length_app, IH, row_bytes_length, Hr.
  cbn [length]. lia.
Qed.

Lemma tobytes_empty_rows (rows : list (list f32)) :
  Forall (fun r => r = []) rows -> tobytes rows = [].
Proof.
  unfold tobytes. induction 1 as [| r rows Hr _ IH]; [reflexivity |].
  subst r. simpl. exact IH.
Qed.

Lemma Forall_slice {A : Type} (P : A -> Prop) (l : list A) (s e : Z) :
  Forall P l -> Forall P (Py.slice l s e).
Proof. intros H. unfold Py.slice. now apply Forall_take, Forall_drop. Qed.

Lemma torch_cat1_same_length (a b : list f32) :
  length b = length a ->
  torch_cat1 a b = Some (zip_with (fun x y => [x; y]) a b).
Proof.
  intros H. unfold torch_cat1. rewrite H, Nat.eqb_refl. reflexivity.
Qed.

Lemma cat_rows_width (a b : list f32) :
  Forall (fun r => length r = 2%nat) (zip_with (fun x y => [x; y]) a b).
Proof.
  revert b. induction a as [| x a IH]; intros [| y b]; simpl; constructor; auto.
Qed.

Lemma cat_rows_length (a b : list f32) :
  length b = length a ->
  length (zip_with (fun x y : f32 => [x; y]) a b) = length a.
Proof. intros H. rewrite length_zip_with. lia. Qed.

(** ** The worker *)

Section ConsumerFacts.

Context {Input : Type}.
Variable get_samples : list Z -> Input * list f32 * list Z.
Variable predict : Input -> option (list f32).
Variable f32_round : f32 -> f32.
Variable f32_eqb : f32 -> f32 -> bool.

Local Abbreviation try_suite' := (try_suite predict f32_round f32_eqb).
Local Abbreviation run_item' := (run_item get_samples predict f32_round f32_eqb).
Local Abbreviation run_loop' := (run_loop get_samples predict f32_round f32_eqb).
Local Abbreviation run' := (run get_samples predict f32_round f32_eqb).
Local Abbreviation well_formed' := (well_formed get_samples).
Local Abbreviation matching_rows' := (matching_rows f32_round f32_eqb).

Lemma torch_eq_same_length (a b : list f32) :
  length b = length a ->
  torch_eq f32_eqb a b = Some (zip_with f32_eqb a b).
Proof.
  intros H.
  destruct a as [| x [| x' a]], b as [| y [| y' b]];
    simpl in H; try discriminate; try reflexivity.
  assert (length b = length a) as H' by lia.
  unfold torch_eq. cbn [length]. rewrite H', Nat.eqb_refl. reflexivity.
Qed.

Lemma nonzero_matching (results batch_T : list f32) :
  nonzero_size0 (zip_with f32_eqb (map f32_round results) batch_T)
  = matching_rows' results batch_T.
Proof.
  unfold nonzero_size0, matching_rows. revert batch_T.
  induction results as [| r rs IH]; intros [| t ts]; try reflexivity.
  simpl map. simpl zip_with. rewrite !filter_cons. simpl fst. simpl snd.
  destruct (decide (f32_eqb (f32_round r) t = true)); simpl; now rewrite IH.
Qed.

(** The [finally] loop ends normally as soon as the offset table has one
    more entry than there are queries left to answer. *)
Lemma response_loop_total (offs : list Z) (pres : list (list f32)) (qs : list Z) :
  forall (idx : nat) (refs : list (list byte)),
    (idx + length qs < length offs)%nat ->
    response_loop idx qs offs pres refs
    = Some (refs ++ map (fun j => tobytes (Py.slice pres (offs !!! j)
                                                    (offs !!! (j + 1)%nat)))
                        (seq idx (length qs))).
Proof.
  induction qs as [| q qs IH]; intros idx refs Hlen.
  - simpl. now rewrite app_nil_r.
  - simpl in Hlen. simpl response_loop. unfold Py.index.
    rewrite (list_lookup_lookup_total_lt offs idx) by lia.
    rewrite (list_lookup_lookup_total_lt offs (idx + 1)) by lia.
    simpl. rewrite IH by lia. now rewrite <- app_assoc.
Qed.

(** It dies with [IndexError] when the table is shorter than that. *)
Lemma response_loop_index_error (offs : list Z) (pres : list (list f32))
    (qs : list Z) :
  forall (idx : nat) (refs : list (list byte)),
    qs <> [] -> (length offs <= idx + length qs)%nat ->
    response_loop idx qs offs pres refs = None.
Proof.
  induction qs as [| q qs IH]; intros idx refs Hne Hlen; [congruence |].
  simpl in Hlen. simpl response_loop. unfold Py.index.
  destruct (offs !! idx) as [s |] eqn:Hs; [| reflexivity].
  destruct (offs !! (idx + 1)%nat) as [e |] eqn:He; [| reflexivity].
  simpl. destruct qs as [| q' qs].
  - apply lookup_lt_Some in He. simpl in Hlen. lia.
  - apply IH; [discriminate | simpl in *; lia].
Qed.

Lemma try_suite_predict_raises (accuracy : bool) (now : Z) (qitem : Item)
    (X : Input) (batch_T : list f32) (l : Locals) :
  predict X = None ->
  try_suite' accuracy now qitem X batch_T l = (false, l).
Proof. intros H. unfold try_suite. now rewrite H. Qed.

Lemma try_suite_completes (accuracy : bool) (now : Z) (qitem : Item)
    (X : Input) (batch_T results : list f32) (l : Locals) :
  predict X = Some results -> length batch_T = length results ->
  try_suite' accuracy now qitem X batch_T l
  = (true,
     mkLocals (matching_rows' results batch_T) (length results)
              (zip_with (fun x y => [x; y]) results batch_T)
              (if accuracy then (now - start qitem)%Z else result_timing l)).
Proof.
  intros Hp Hlen. unfold try_suite. rewrite Hp.
  rewrite torch_eq_same_length by now rewrite length_map.
  rewrite torch_cat1_same_length by assumption.
  rewrite nonzero_matching. now destruct accuracy.
Qed.

(** A raise anywhere in the [try] suite leaves [presults] as it was. *)
Lemma try_suite_raise_keeps_presults (accuracy : bool) (now : Z) (qitem : Item)
    (X : Input) (batch_T : list f32) (l l' : Locals) :
  try_suite' accuracy now qitem X batch_T l = (false, l') ->
  presults l' = presults l.
Proof.
  unfold try_suite. intros H.
  destruct (predict X) as [results |]; [| now inversion H].
  destruct (torch_eq _ _ _) as [hits |]; [| now inversion H].
  destruct (torch_cat1 _ _) as [cat |]; [| now inversion H].
  discriminate.
Qed.

Lemma map_seq_const {A : Type} (f : nat -> A) (x : A) (a n : nat) :
  (forall j, f j = x) -> map f (seq a n) = replicate n x.
Proof.
  intros Hf. revert a. induction n as [| n IH]; intros a; [reflexivity |].
  simpl. now rewrite Hf, IH.
Qed.

(** The outcome of an item whose [try] suite runs to its end. *)
Lemma run_item_success (accuracy : bool) (now : Z) (qitem : Item)
    (X : Input) (batch_T : list f32) (offs : list Z) (results : list f32) :
  get_samples (content_id qitem) = (X, batch_T, offs) ->
  predict X = Some results ->
  length batch_T = length results ->
  (length (query_id qitem) < length offs)%nat ->
  run_item' accuracy now qitem
  = Some (OItem.mk
            (matching_rows' results batch_T) (length results)
            (if accuracy then (now - start qitem)%Z else 0%Z)
            (if accuracy then zip_with (fun x y => [x; y]) results batch_T else [])
            (query_id qitem)
            (map (fun j => tobytes (Py.slice (zip_with (fun x y => [x; y])
                                                       results batch_T)
                                             (offs !!! j) (offs !!! (j + 1)%nat)))
                 (seq 0 (length (query_id qitem))))).
Proof.
  intros Hg Hp Hlen Hoffs. unfold run_item. rewrite Hg.
  rewrite (try_suite_completes _ _ _ _ _ results) by assumption.
  cbn [presults good total result_timing].
  rewrite response_loop_total by (simpl; lia).
  reflexivity.
Qed.

(** The outcome of an item whose [try] suite raises: what the suite had
    assigned to [good] and [total] so far, and an empty payload per query. *)
Lemma run_item_failure (accuracy : bool) (now : Z) (qitem : Item)
    (X : Input) (batch_T : list f32) (offs : list Z) (l1 : Locals) :
  get_samples (content_id qitem) = (X, batch_T, offs) ->
  try_suite' accuracy now qitem X batch_T (mkLocals 0 0 [] 0) = (false, l1) ->
  (length (query_id qitem) < length offs)%nat ->
  run_item' accuracy now qitem
  = Some (OItem.mk (good l1) (total l1) (result_timing l1)
            (if accuracy then replicate (length (query_id qitem)) [] else [])
            (query_id qitem)
            (replicate (length (query_id qitem)) [])).
Proof.
  intros Hg Ht Hoffs. unfold run_item. rewrite Hg, Ht.
  unfold except_suite. cbn [presults good total result_timing set_presults].
  rewrite response_loop_total by (simpl; lia).
  cbn [mbind option_bind app]. do 2 f_equal.
  apply map_seq_const. intros j.
  apply tobytes_empty_rows, Forall_slice, Forall_replicate. reflexivity.
Qed.

(** Whatever the [try] suite does, an item whose offset table is long
    enough produces an outcome with one payload per query id. *)
Lemma run_item_answers (accuracy : bool) (now : Z) (qitem : Item) :
  (length (query_id qitem) < length (offsets_of get_samples qitem))%nat ->
  exists oitem : OItem.t,
    run_item' accuracy now qitem = Some oitem
    /\ OItem.query_ids oitem = query_id qitem
    /\ length (OItem.array_ref oitem) = length (query_id qitem).
Proof.
  unfold offsets_of, run_item.
  destruct (get_samples (content_id qitem)) as [[X batch_T] offs].
  cbn [snd]. intros Hoffs.
  destruct (try_suite' accuracy now qitem X batch_T (mkLocals 0 0 [] 0))
    as [completed l1].
  rewrite response_loop_total by (simpl; lia).
  eexists. split; [reflexivity |]. cbn [OItem.query_ids OItem.array_ref].
  split; [reflexivity |]. cbn [app]. now rewrite length_map, length_seq.
Qed.

Lemma run_loop_item (accuracy : bool) (clock : nat -> Z) (k : nat)
    (qitem : Item) (gets : TaskQueue) (w : Worker) (oitem : OItem.t) :
  run_item' accuracy (clock k) qitem = Some oitem ->
  run_loop' accuracy clock k (Some qitem :: gets) w
  = run_loop' accuracy clock (S k) gets
      (mkWorker (put (Some oitem) (result_queue w)) (S (tasks_done w)) Running).
Proof. intros H. simpl. now rewrite H. Qed.

Lemma run_loop_answers (accuracy : bool) (clock : nat -> Z) (items : list Item) :
  Forall well_formed' items ->
  forall (k : nat) (w : Worker),
    status w = Running ->
    exists oitems : list OItem.t,
      run_loop' accuracy clock k (map Some items) w
      = mkWorker (result_queue w ++ map Some oitems)
                 (tasks_done w + length items) Running
      /\ Forall2 (fun qitem oitem =>
                    OItem.query_ids oitem = query_id qitem
                    /\ length (OItem.array_ref oitem) = length (query_id qitem))
                 items oitems
      /\ (forall j qitem, items !! j = Some qitem ->
            run_item' accuracy (clock (k + j)%nat) qitem = oitems !! j).
Proof.
  induction 1 as [| qitem items [Hq Ho] _ IH]; intros k w Hw.
  - exists []. simpl. rewrite app_nil_r, Nat.add_0_r.
    split; [destruct w; simpl in *; now subst |].
    split; [constructor | intros j q Hj; discriminate].
  - destruct (run_item_answers accuracy (clock k) qitem ltac:(lia))
      as (oitem & Hrun & Hids & Hrefs).
    destruct (IH (S k)
                (mkWorker (put (Some oitem) (result_queue w))
                          (S (tasks_done w)) Running) eq_refl)
      as (oitems & Hloop & Hall & Hnth).
    exists (oitem :: oitems). cbn [map].
    rewrite (run_loop_item _ _ _ _ _ _ oitem Hrun), Hloop.
    cbn [result_queue tasks_done]. unfold put. rewrite <- app_assoc.
    split; [cbn [length app]; f_equal; lia |].
    split; [constructor; auto |].
    intros [| j] q Hj; simpl in Hj.
    + injection Hj as <-. now rewrite Nat.add_0_r.
    + change ((oitem :: oitems) !! S j) with (oitems !! j).
      rewrite <- (Hnth j q Hj).
      now replace (k + S j)%nat with (S k + j)%nat by lia.
Qed.

(** C1. A worker that pulls work items (each with as many sample refs as
    query ids, on a dataset that answers one span per sample ref) puts
    exactly one outcome per item on the result queue, in order, and each
    outcome carries the item's query ids and exactly as many payloads as
    query ids. Nothing is assumed about [predict]: the statement covers
    the path on which the [try] suite completes and the one on which it
    raises. *)
Theorem every_item_gets_one_outcome (accuracy : bool) (clock : nat -> Z)
    (items : list Item) :
  Forall well_formed' items ->
  exists oitems : list OItem.t,
    run' accuracy clock (map Some items)
    = mkWorker (map Some oitems) (length items) Running
    /\ length oitems = length items
    /\ Forall2 (fun qitem oitem =>
                  OItem.query_ids oitem = query_id qitem
                  /\ length (OItem.array_ref oitem) = length (query_id qitem))
               items oitems
    /\ (forall j qitem, items !! j = Some qitem ->
          run_item' accuracy (clock j) qitem = oitems !! j).
Proof.
  intros Hwf.
  destruct (run_loop_answers accuracy clock items Hwf 0 (mkWorker [] 0 Running)
              eq_refl) as (oitems & Hrun & Hall & Hnth).
  exists oitems. unfold run. rewrite Hrun.
  split; [reflexivity |].
  split; [symmetry; eapply Forall2_length; eassumption |].
  split; assumption.
Qed.

(** C3, amended. When [predict] or a post-processing step raises for a
    work item, the worker answers every query of the batch with an empty
    payload, puts that outcome on the result queue and goes on with the
    rest of the work queue exactly as after any other item; when it is
    [predict] that raised, the outcome carries total = 0 and good = 0, so
    the collector's good and total are both left unchanged by the item. *)
Theorem failed_item_is_answered_empty (accuracy : bool) (clock : nat -> Z)
    (k : nat) (qitem : Item) (X : Input) (batch_T : list f32) (offs : list Z)
    (l1 : Locals) :
  get_samples (content_id qitem) = (X, batch_T, offs) ->
  (length (query_id qitem) < length offs)%nat ->
  try_suite' accuracy (clock k) qitem X batch_T (mkLocals 0 0 [] 0) = (false, l1) ->
  exists oitem : OItem.t,
    run_item' accuracy (clock k) qitem = Some oitem
    /\ OItem.query_ids oitem = query_id qitem
    /\ OItem.array_ref oitem = replicate (length (query_id qitem)) []
    /\ (forall (gets : TaskQueue) (w : Worker),
          run_loop' accuracy clock k (Some qitem :: gets) w
          = run_loop' accuracy clock (S k) gets
              (mkWorker (put (Some oitem) (result_queue w))
                        (S (tasks_done w)) Running))
    /\ (predict X = None ->
          OItem.total oitem = 0%nat /\ OItem.good oitem = 0%nat
          /\ forall g : Aggregate,
               item_total (collect accuracy oitem g) = item_total g
               /\ item_good (collect accuracy oitem g) = item_good g).
Proof.
  intros Hg Hoffs Ht.
  pose proof (run_item_failure accuracy (clock k) qitem X batch_T offs l1
                Hg Ht Hoffs) as Hrun.
  eexists. split; [exact Hrun |].
  cbn [OItem.query_ids OItem.array_ref OItem.total OItem.good].
  split; [reflexivity |]. split; [reflexivity |].
  split; [intros gets w; now apply run_loop_item |].
  intros Hp. rewrite try_suite_predict_raises in Ht by assumption.
  injection Ht as <-. cbn [total good].
  split; [reflexivity |]. split; [reflexivity |].
  intros g. unfold collect. cbn [item_total item_good OItem.total OItem.good].
  lia.
Qed.

(** C8. When the [try] suite completes, on an offset table whose spans lie
    inside the result buffer, the payload of the query at position [idx]
    is the serialisation of the rows [idx_offsets[idx]] up to
    [idx_offsets[idx+1]] (excluded) of the two-column (result, target)
    buffer, and it is 4 * 2 * (e_idx - s_idx) bytes long, whatever the
    widths of the spans. *)
Theorem payload_covers_offset_span (accuracy : bool) (now : Z) (qitem : Item)
    (X : Input) (batch_T : list f32) (offs : list Z) (results : list f32) :
  get_samples (content_id qitem) = (X, batch_T, offs) ->
  predict X = Some results ->
  length batch_T = length results ->
  length offs = S (length (query_id qitem)) ->
  (forall idx s e, offs !! idx = Some s -> offs !! S idx = Some e ->
     (0 <= s <= e)%Z /\ (e <= Z.of_nat (length results))%Z) ->
  exists oitem : OItem.t,
    run_item' accuracy now qitem = Some oitem
    /\ length (OItem.array_ref oitem) = length (query_id qitem)
    /\ forall idx, (idx < length (query_id qitem))%nat ->
         exists (s_idx e_idx : Z) (payload : list byte),
           offs !! idx = Some s_idx
           /\ offs !! S idx = Some e_idx
           /\ OItem.array_ref oitem !! idx = Some payload
           /\ payload
              = tobytes (Py.slice (zip_with (fun r t => [r; t]) results batch_T)
                                  s_idx e_idx)
           /\ Z.of_nat (length payload) = (4 * 2 * (e_idx - s_idx))%Z.
Proof.
  intros Hg Hp Hlen Hoffs Hspans.
  eexists. split; [apply (run_item_success _ _ _ X batch_T offs results);
                   auto; lia |].
  cbn [OItem.array_ref]. split; [now rewrite length_map, length_seq |].
  intros idx Hidx.
  pose proof (list_lookup_lookup_total_lt offs idx ltac:(lia)) as Hs.
  pose proof (list_lookup_lookup_total_lt offs (S idx) ltac:(lia)) as He.
  destruct (Hspans idx _ _ Hs He) as [Hse Hbound].
  exists (offs !!! idx), (offs !!! S idx). eexists.
  split; [exact Hs |]. split; [exact He |].
  split.
  { rewrite list_lookup_fmap, lookup_seq_lt by assumption.
    cbn [fmap option_fmap option_map Nat.add].
    now replace (idx + 1)%nat with (S idx) by lia. }
  split; [reflexivity |].
  rewrite (tobytes_length 2) by apply Forall_slice, cat_rows_width.
  rewrite Nat2Z.inj_mul.
  rewrite slice_length_within; [lia | lia |].
  rewrite cat_rows_length by assumption. lia.
Qed.

(** A completed item reports the row count of [predict] and the number of
    matching rows. *)
Lemma completed_item_counts_rows (accuracy : bool) (now : Z) (qitem : Item)
    (X : Input) (batch_T : list f32) (offs : list Z) (results : list f32) :
  get_samples (content_id qitem) = (X, batch_T, offs) ->
  predict X = Some results ->
  length batch_T = length results ->
  (length (query_id qitem) < length offs)%nat ->
  exists oitem : OItem.t,
    run_item' accuracy now qitem = Some oitem
    /\ OItem.total oitem = length results
    /\ OItem.good oitem = matching_rows' results batch_T.
Proof.
  intros Hg Hp Hlen Hoffs.
  eexists. split; [now apply (run_item_success _ _ _ X batch_T offs results) |].
  split; reflexivity.
Qed.

End ConsumerFacts.

(** ** The worker on the toy dataset *)

Lemma toy_items_well_formed :
  Forall (well_formed Toy.get_samples) [Toy.poisoned; Toy.ten_queries].
Proof. repeat constructor. Qed.

Lemma every_item_gets_one_outcome_witness :
  Forall (well_formed Toy.get_samples) [Toy.poisoned; Toy.ten_queries]
  /\ exists oitems : list OItem.t,
       Toy.run false (fun _ => 0%Z) (map Some [Toy.poisoned; Toy.ten_queries])
       = mkWorker (map Some oitems) 2 Running
       /\ length oitems = 2%nat.
Proof.
  split; [exact toy_items_well_formed |].
  destruct (every_item_gets_one_outcome Toy.get_samples Toy.predict
              Toy.f32_round Toy.f32_eqb false (fun _ => 0%Z)
              [Toy.poisoned; Toy.ten_queries] toy_items_well_formed)
    as (oitems & Hrun & Hlen & _).
  exists oitems. split; assumption.
Defined.

(** A misaligned item, with more query ids than sample refs, kills the
    worker in the [finally] suite: no outcome is put for it, and the items
    behind it are never pulled. *)
Example misaligned_item_kills_worker :
  Toy.run false (fun _ => 0%Z)
    [Some (mkItem [1; 2; 3] [0; 1] 0)%Z; Some Toy.ten_queries; None]
  = mkWorker [] 0 Crashed.
Proof. reflexivity. Qed.

(** Against C3 as stated: the item whose prediction raises is answered (two
    empty payloads), but the collector's total stays where it was; it moves
    neither by the two queries of the batch nor by its seven sample rows. *)
Lemma failed_item_adds_nothing_to_total :
  Toy.predict (Toy.rows (content_id Toy.poisoned)) = None
  /\ length (query_id Toy.poisoned) = 2%nat
  /\ length (Toy.rows (content_id Toy.poisoned)) = 7%nat
  /\ exists oitem : OItem.t,
       Toy.run_item false 0 Toy.poisoned = Some oitem
       /\ OItem.array_ref oitem = [[]; []]
       /\ item_total (collect false oitem Toy.empty_aggregate)
          = item_total Toy.empty_aggregate
       /\ item_total (collect false oitem Toy.empty_aggregate)
          <> (item_total Toy.empty_aggregate + 2)%nat
       /\ item_total (collect false oitem Toy.empty_aggregate)
          <> (item_total Toy.empty_aggregate + 7)%nat.
Proof.
  split; [reflexivity |]. split; [reflexivity |]. split; [reflexivity |].
  eexists. split; [reflexivity |]. simpl.
  repeat split; lia.
Qed.


Lemma failed_item_is_answered_empty_witness :
  Toy.get_samples (content_id Toy.poisoned)
  = (Toy.rows [-1; -2]%Z, [0; 0; 0; 0; Toy.one; Toy.one; Toy.one]%Z, [0; 4; 7]%Z)
  /\ (length (query_id Toy.poisoned) < length [0; 4; 7]%Z)%nat
  /\ try_suite Toy.predict Toy.f32_round Toy.f32_eqb false 0 Toy.poisoned
       (Toy.rows [-1; -2]%Z) [0; 0; 0; 0; Toy.one; Toy.one; Toy.one]%Z
       (mkLocals 0 0 [] 0)
     = (false, mkLocals 0 0 [] 0)
  /\ exists oitem : OItem.t,
       Toy.run_item false 0 Toy.poisoned = Some oitem
       /\ OItem.array_ref oitem = [[]; []]
       /\ Toy.run false (fun _ => 0%Z) [Some Toy.poisoned; Some Toy.ten_queries; None]
          = run_loop Toy.get_samples Toy.predict Toy.f32_round Toy.f32_eqb
              false (fun _ => 0%Z) 1 [Some Toy.ten_queries; None]
              (mkWorker [Some oitem] 1 Running).
Proof.
  assert (Toy.get_samples (content_id Toy.poisoned)
          = (Toy.rows [-1; -2]%Z, [0; 0; 0; 0; Toy.one; Toy.one; Toy.one]%Z,
             [0; 4; 7]%Z)) as H1 by reflexivity.
  assert (length (query_id Toy.poisoned) < length [0; 4; 7]%Z)%nat as H2
    by (simpl; lia).
  assert (try_suite Toy.predict Toy.f32_round Toy.f32_eqb false 0 Toy.poisoned
            (Toy.rows [-1; -2]%Z) [0; 0; 0; 0; Toy.one; Toy.one; Toy.one]%Z
            (mkLocals 0 0 [] 0)
          = (false, mkLocals 0 0 [] 0)) as H3 by reflexivity.
  destruct (failed_item_is_answered_empty Toy.get_samples Toy.predict
              Toy.f32_round Toy.f32_eqb false (fun _ => 0%Z) 0 Toy.poisoned
              _ _ _ _ H1 H2 H3)
    as (oitem & Hrun & _ & Hrefs & Hloop & _).
  repeat split; try assumption.
  exists oitem. split; [exact Hrun |]. split; [exact Hrefs |].
  exact (Hloop [Some Toy.ten_queries; None] (mkWorker [] 0 Running)).
Defined.

(** After the item that failed, the next one succeeds and the sentinel ends
    the worker: three [task_done], two outcomes, the second with payloads
    of 8 bytes per row of its span. *)
Example failure_then_success :
  (fun w => (map (fun o => match o with
                           | Some oitem =>
                               (OItem.good oitem, OItem.total oitem,
                                map length (OItem.array_ref oitem))
                           | None => (0, 0, [])%nat
                           end) (result_queue w),
             tasks_done w, status w))
    (Toy.run false (fun _ => 0%Z) [Some Toy.poisoned; Some Toy.ten_queries; None])
  = ([(0, 0, [0; 0]); (15, 25, [8; 16; 24; 8; 24; 32; 8; 32; 24; 24])]%nat,
     3%nat, Exited).
Proof. vm_compute. reflexivity. Qed.

Lemma toy_spans_within (idx : nat) (s e : Z) :
  [0; 1; 3; 6; 7; 10; 14; 15; 19; 22; 25]%Z !! idx = Some s ->
  [0; 1; 3; 6; 7; 10; 14; 15; 19; 22; 25]%Z !! S idx = Some e ->
  (0 <= s <= e)%Z /\ (e <= 25)%Z.
Proof.
  intros Hs He.
  do 10 (destruct idx as [| idx];
         [vm_compute in Hs, He; inversion Hs; inversion He; lia |]).
  destruct idx; discriminate.
Qed.

Lemma payload_covers_offset_span_witness :
  Toy.get_samples (content_id Toy.ten_queries)
  = (Toy.rows (content_id Toy.ten_queries),
     map (fun r => if Z.even r then Toy.one else Toy.zero)
         (Toy.rows (content_id Toy.ten_queries)),
     [0; 1; 3; 6; 7; 10; 14; 15; 19; 22; 25]%Z)
  /\ Toy.predict (Toy.rows (content_id Toy.ten_queries))
     = Some (replicate 25 Toy.one)
  /\ exists oitem : OItem.t,
       Toy.run_item false 0 Toy.ten_queries = Some oitem
       /\ length (OItem.array_ref oitem) = 10%nat
       /\ exists payload : list byte,
            OItem.array_ref oitem !! 5%nat = Some payload
            /\ Z.of_nat (length payload) = (4 * 2 * (14 - 10))%Z.
Proof.
  assert (Toy.get_samples (content_id Toy.ten_queries)
          = (Toy.rows (content_id Toy.ten_queries),
             map (fun r => if Z.even r then Toy.one else Toy.zero)
                 (Toy.rows (content_id Toy.ten_queries)),
             [0; 1; 3; 6; 7; 10; 14; 15; 19; 22; 25]%Z)) as H1 by reflexivity.
  assert (Toy.predict (Toy.rows (content_id Toy.ten_queries))
          = Some (replicate 25 Toy.one)) as H2 by reflexivity.
  split; [exact H1 |]. split; [exact H2 |].
  destruct (payload_covers_offset_span Toy.get_samples Toy.predict
              Toy.f32_round Toy.f32_eqb false 0 Toy.ten_queries _ _ _ _
              H1 H2 eq_refl eq_refl toy_spans_within)
    as (oitem & Hrun & Hlen & Hspan).
  exists oitem. split; [exact Hrun |]. split; [exact Hlen |].
  destruct (Hspan 5%nat ltac:(simpl; lia))
    as (s_idx & e_idx & payload & Hs & He & Hp & _ & Hbytes).
  injection Hs as <-. injection He as <-.
  exists payload. split; assumption.
Defined.

(** C9. When the [try] suite completes, the outcome's total is the number
    of rows [predict] returned and its good is the number of those rows
    whose rounded prediction equals the ground truth; both count sample
    rows, so with spans wider than one row the total exceeds the number of
    query ids (25 against 10 on the toy dataset). *)
Theorem outcome_counts_rows_not_queries :
  (forall (Input : Type) (get_samples : list Z -> Input * list f32 * list Z)
          (predict : Input -> option (list f32))
          (f32_round : f32 -> f32) (f32_eqb : f32 -> f32 -> bool)
          (accuracy : bool) (now : Z) (qitem : Item)
          (X : Input) (batch_T : list f32) (offs : list Z) (results : list f32),
      get_samples (content_id qitem) = (X, batch_T, offs) ->
      predict X = Some results ->
      length batch_T = length results ->
      (length (query_id qitem) < length offs)%nat ->
      exists oitem : OItem.t,
        run_item get_samples predict f32_round f32_eqb accuracy now qitem
        = Some oitem
        /\ OItem.total oitem = length results
        /\ OItem.good oitem = matching_rows f32_round f32_eqb results batch_T)
  /\ (exists oitem : OItem.t,
        Toy.run_item false 0 Toy.ten_queries = Some oitem
        /\ length (query_id Toy.ten_queries) = 10%nat
        /\ OItem.total oitem = 25%nat
        /\ OItem.good oitem = 15%nat
        /\ (length (query_id Toy.ten_queries) < OItem.total oitem)%nat).
Proof.
  split.
  - intros. now apply (completed_item_counts_rows _ _ _ _ _ _ _ X batch_T offs results).
  - eexists. split; [reflexivity |]. simpl. repeat split; lia.
Qed.

Lemma outcome_counts_rows_not_queries_witness :
  Toy.get_samples (content_id Toy.ten_queries)
  = (Toy.rows (content_id Toy.ten_queries),
     map (fun r => if Z.even r then Toy.one else Toy.zero)
         (Toy.rows (content_id Toy.ten_queries)),
     [0; 1; 3; 6; 7; 10; 14; 15; 19; 22; 25]%Z)
  /\ Toy.predict (Toy.rows (content_id Toy.ten_queries))
     = Some (replicate 25 Toy.one)
  /\ exists oitem : OItem.t,
       Toy.run_item true 9 Toy.ten_queries = Some oitem
       /\ OItem.total oitem = 25%nat.
Proof.
  assert (Toy.get_samples (content_id Toy.ten_queries)
          = (Toy.rows (content_id Toy.ten_queries),
             map (fun r => if Z.even r then Toy.one else Toy.zero)
                 (Toy.rows (content_id Toy.ten_queries)),
             [0; 1; 3; 6; 7; 10; 14; 15; 19; 22; 25]%Z)) as H1 by reflexivity.
  assert (Toy.predict (Toy.rows (content_id Toy.ten_queries))
          = Some (replicate 25 Toy.one)) as H2 by reflexivity.
  split; [exact H1 |]. split; [exact H2 |].
  destruct (proj1 outcome_counts_rows_not_queries _ Toy.get_samples Toy.predict
              Toy.f32_round Toy.f32_eqb true 9%Z Toy.ten_queries _ _ _ _
              H1 H2 eq_refl ltac:(simpl; lia))
    as (oitem & Hrun & Htotal & _).
  exists oitem. split; [exact Hrun | exact Htotal].
Defined.

(** ** The sample-window barrier *)

Lemma load_step_inv (num_sockets : nat) (sample_list : list Z) (now : Z) (c : Coord) :
  load_inv num_sockets sample_list c ->
  load_inv num_sockets sample_list (load_step num_sockets sample_list now c).
Proof.
  unfold load_inv, load_step.
  destruct c as [p q n t]; cbn [pc dsQueue init_counter start_time].
  destruct p as [[| k] | |]; cbn [pc dsQueue init_counter start_time].
  - intros (Ht & _ & Hq). rewrite Nat.sub_0_r in Hq. auto.
  - intros (Ht & Hk & Hq). split; [assumption |]. split; [lia |].
    rewrite Hq. unfold put.
    replace (num_sockets - k)%nat with (S (num_sockets - S k)) by lia.
    now rewrite replicate_S_end.
  - intros (Ht & Hq).
    destruct (Z.ltb_spec n (2 * Z.of_nat num_sockets));
      cbn [pc dsQueue init_counter start_time]; auto.
  - auto.
Qed.

Lemma worker_ready_inv (num_sockets : nat) (sample_list : list Z) (c : Coord) :
  load_inv num_sockets sample_list c ->
  load_inv num_sockets sample_list (worker_ready c).
Proof.
  unfold load_inv, worker_ready.
  destruct c as [p q n t]; cbn [pc dsQueue init_counter start_time].
  destruct p as [k | |]; auto.
  intros [Hq Hn]. split; [assumption | lia].
Qed.

Lemma reachable_inv (num_sockets : nat) (sample_list : list Z) (counter : Z)
    (c : Coord) :
  reachable num_sockets sample_list (load_entry num_sockets counter) c ->
  load_inv num_sockets sample_list c.
Proof.
  induction 1 as [| c c' _ IH Hstep].
  - unfold load_inv, load_entry. cbn [pc dsQueue start_time].
    split; [reflexivity |]. split; [lia |]. now rewrite Nat.sub_diag.
  - destruct Hstep; [now apply load_step_inv | now apply worker_ready_inv].
Qed.

(** The timestamp is written by the step that leaves the polling loop and
    by no other, so a state without one is not yet [Returned]. *)
Lemma reachable_stamp_iff_returned (num_sockets : nat) (sample_list : list Z)
    (counter : Z) (c : Coord) :
  reachable num_sockets sample_list (load_entry num_sockets counter) c ->
  (pc c = Returned <-> start_time c <> None).
Proof.
  induction 1 as [| c c' _ IH Hstep].
  - simpl. split; [discriminate | congruence].
  - destruct Hstep as [now c | c].
    + unfold load_step. destruct c as [p q n t].
      cbn [pc dsQueue init_counter start_time] in *.
      destruct p as [[| k] | |]; cbn [pc start_time]; try assumption.
      * split; [discriminate | intros Ht; apply IH in Ht; discriminate].
      * split; [discriminate | intros Ht; apply IH in Ht; discriminate].
      * destruct (Z.ltb_spec n (2 * Z.of_nat num_sockets));
          cbn [pc start_time]; [assumption |].
        split; [discriminate | reflexivity].
    + unfold worker_ready. cbn [pc start_time]. assumption.
Qed.

(** C5. From the call of [load_query_samples] on, under any interleaving
    with the workers' increments of the ready counter: whenever a start
    timestamp is recorded, the sample window has been put on the dataset
    queue once per worker ([num_sockets] times) and the ready counter is at
    [2 * num_sockets] or above; while the counter is below
    [2 * num_sockets] no timestamp is recorded, and a coordinator that has
    reached its polling loop stays in it without changing anything. *)
Theorem start_time_waits_for_second_barrier (num_sockets : nat)
    (sample_list : list Z) (counter : Z) (c : Coord) :
  reachable num_sockets sample_list (load_entry num_sockets counter) c ->
  (forall t, start_time c = Some t ->
     dsQueue c = replicate num_sockets sample_list
     /\ (2 * Z.of_nat num_sockets <= init_counter c)%Z)
  /\ ((init_counter c < 2 * Z.of_nat num_sockets)%Z ->
        start_time c = None
        /\ (pc c = Polling ->
              forall now, load_step num_sockets sample_list now c = c)).
Proof.
  intros Hreach.
  pose proof (reachable_inv _ _ _ _ Hreach) as Hinv.
  pose proof (reachable_stamp_iff_returned _ _ _ _ Hreach) as Hret.
  unfold load_inv in Hinv.
  split.
  - intros t Ht.
    assert (pc c = Returned) as Hpc by (apply Hret; congruence).
    rewrite Hpc in Hinv. exact Hinv.
  - intros Hlow. split.
    + destruct (start_time c) as [t |] eqn:Ht; [| reflexivity].
      assert (pc c = Returned) as Hpc by (apply Hret; congruence).
      rewrite Hpc in Hinv. lia.
    + intros Hpc now. unfold load_step. rewrite Hpc.
      destruct (Z.ltb_spec (init_counter c) (2 * Z.of_nat num_sockets));
        [reflexivity | lia].
Qed.

Lemma start_time_waits_for_second_barrier_witness :
  reachable 1 [3; 4]%Z (load_entry 1 0) (mkCoord Returned [[3; 4]%Z] 2 (Some 77%Z))
  /\ [[3; 4]%Z] = replicate 1 [3; 4]%Z
  /\ (2 * Z.of_nat 1 <= 2)%Z.
Proof.
  assert (reachable 1 [3; 4]%Z (load_entry 1 0)
            (mkCoord Returned [[3; 4]%Z] 2 (Some 77%Z))) as Hreach.
  { apply reach_step with (c := mkCoord Polling [[3; 4]%Z] 2 None);
      [| exact (step_coord 1 [3; 4]%Z 77 (mkCoord Polling [[3; 4]%Z] 2 None))].
    apply reach_step with (c := mkCoord Polling [[3; 4]%Z] 1 None);
      [| exact (step_worker 1 [3; 4]%Z (mkCoord Polling [[3; 4]%Z] 1 None))].
    apply reach_step with (c := mkCoord Polling [[3; 4]%Z] 1 None);
      [| exact (step_coord 1 [3; 4]%Z 50 (mkCoord Polling [[3; 4]%Z] 1 None))].
    apply reach_step with (c := mkCoord (Broadcasting 0) [[3; 4]%Z] 1 None);
      [| exact (step_coord 1 [3; 4]%Z 0
                  (mkCoord (Broadcasting 0) [[3; 4]%Z] 1 None))].
    apply reach_step with (c := mkCoord (Broadcasting 0) [[3; 4]%Z] 0 None);
      [| exact (step_worker 1 [3; 4]%Z
                  (mkCoord (Broadcasting 0) [[3; 4]%Z] 0 None))].
    apply reach_step with (c := load_entry 1 0);
      [| exact (step_coord 1 [3; 4]%Z 0 (load_entry 1 0))].
    apply reach_refl. }
  split; [exact Hreach |].
  exact (proj1 (start_time_waits_for_second_barrier 1 [3; 4]%Z 0 _ Hreach)
               77%Z eq_refl).
Defined.

(** ** Shutdown *)

Lemma all_before_app (tr1 tr2 : list Event) (a b : Event -> Prop) :
  Forall (fun x => ~ b x) tr1 ->
  Forall (fun y => ~ a y) tr2 ->
  all_before (tr1 ++ tr2) a b.
Proof.
  intros H1 H2 i j x y Hi Hj Ha Hb.
  rewrite Forall_lookup in H1, H2.
  apply lookup_app_Some in Hi, Hj.
  destruct Hi as [Hi | [Hi Hi']].
  - destruct Hj as [Hj | [Hj _]].
    + exfalso. exact (H1 _ _ Hj Hb).
    + apply lookup_lt_Some in Hi. lia.
  - exfalso. exact (H2 _ _ Hi' Ha).
Qed.

Lemma filter_all {A : Type} (P : A -> Prop) `{!forall x, Decision (P x)}
    (l : list A) :
  Forall P l -> filter P l = l.
Proof.
  induction 1 as [| x l Hx _ IH]; [reflexivity |].
  rewrite filter_cons_True by assumption. now rewrite IH.
Qed.

Lemma filter_none {A : Type} (P : A -> Prop) `{!forall x, Decision (P x)}
    (l : list A) :
  Forall (fun x => ~ P x) l -> filter P l = [].
Proof.
  induction 1 as [| x l Hx _ IH]; [reflexivity |].
  now rewrite filter_cons_False by assumption.
Qed.

(** The collector leaves its loop on the sentinel only: with outcomes of
    workers alone on the result queue it keeps waiting. *)
Lemma response_loadgen_waits_for_sentinel (accuracy : bool)
    (oitems : list OItem.t) (g : Aggregate) :
  (response_loadgen accuracy (map Some oitems) g).1 = false.
Proof.
  revert g. induction oitems as [| o oitems IH]; intros g; [reflexivity |].
  simpl. apply IH.
Qed.

(** Against C6 as stated: with two workers the shutdown sequence ends with
    the sentinel for the collector and the two destructors; the collector
    thread is never joined. *)
Lemma shutdown_never_joins_collector :
  shutdown (consumers 2)
  = [InQueueJoin; InQueuePut None; InQueuePut None;
     ConsumerJoin 0; ConsumerJoin 1; OutQueuePut None;
     DestroyQSL; DestroyFastSUT]
  /\ ~ In ResponseWorkerJoin (shutdown (consumers 2)).
Proof.
  split; [reflexivity |].
  simpl. intros H. repeat (destruct H as [H | H]; [discriminate |]). exact H.
Qed.

(** C6, amended. Shutdown performs, in this order: the wait for the work
    queue to drain, then one termination sentinel per worker on the work
    queue, then the join of every worker, then one termination sentinel on
    the result queue. The collector is not joined; it stops on that
    sentinel only, which is put after every worker has been joined. *)
Theorem shutdown_order (num_sockets : nat) :
  shutdown (consumers num_sockets)
  = [InQueueJoin]
    ++ replicate num_sockets (InQueuePut None)
    ++ map ConsumerJoin (seq 0 num_sockets)
    ++ [OutQueuePut None; DestroyQSL; DestroyFastSUT]
  /\ all_before (shutdown (consumers num_sockets)) is_inqueue_join is_work_sentinel
  /\ all_before (shutdown (consumers num_sockets)) is_work_sentinel is_consumer_join
  /\ all_before (shutdown (consumers num_sockets)) is_consumer_join is_result_sentinel
  /\ length (filter is_work_sentinel (shutdown (consumers num_sockets))) = num_sockets
  /\ length (filter is_result_sentinel (shutdown (consumers num_sockets))) = 1%nat
  /\ ~ In ResponseWorkerJoin (shutdown (consumers num_sockets))
  /\ (forall accuracy oitems g,
        (response_loadgen accuracy (map Some oitems) g).1 = false).
Proof.
  assert (map (fun _ : nat => InQueuePut None) (seq 0 num_sockets)
          = replicate num_sockets (InQueuePut None)) as Hputs.
  { generalize 0%nat. induction num_sockets as [| n IH]; intros a;
      [reflexivity |]. simpl. now rewrite IH. }
  unfold shutdown, consumers. rewrite Hputs.
  set (puts := replicate num_sockets (InQueuePut None)).
  set (joins := map ConsumerJoin (seq 0 num_sockets)).
  assert (Forall is_work_sentinel puts) as Fputs
    by (apply Forall_replicate; exact I).
  assert (Forall is_consumer_join joins) as Fjoins
    by (apply Forall_fmap, Forall_true; intros k; exact I).
  split; [reflexivity |].
  split.
  { apply all_before_app.
    - repeat constructor. simpl. tauto.
    - repeat (apply Forall_app; split).
      + eapply Forall_impl; [exact Fputs |]. intros [] H; simpl in *; tauto.
      + eapply Forall_impl; [exact Fjoins |]. intros [] H; simpl in *; tauto.
      + repeat constructor; simpl; tauto.
      + repeat constructor; simpl; tauto. }
  split.
  { rewrite (app_assoc [InQueueJoin]). apply all_before_app.
    - apply Forall_app; split.
      + repeat constructor. simpl. tauto.
      + eapply Forall_impl; [exact Fputs |]. intros [] H; simpl in *; tauto.
    - repeat (apply Forall_app; split).
      + eapply Forall_impl; [exact Fjoins |].
        intros [| [] | | | | |] H; simpl in *; tauto.
      + repeat constructor; simpl; tauto.
      + repeat constructor; simpl; tauto. }
  split.
  { rewrite (app_assoc puts), (app_assoc [InQueueJoin]). apply all_before_app.
    - repeat (apply Forall_app; split).
      + repeat constructor. simpl. tauto.
      + eapply Forall_impl; [exact Fputs |].
        intros [| [] | | | | |] H; simpl in *; tauto.
      + eapply Forall_impl; [exact Fjoins |]. intros [] H; simpl in *; tauto.
    - repeat (apply Forall_app; split); repeat constructor; simpl; tauto. }
  split.
  { rewrite !filter_app, !length_app.
    rewrite (filter_all _ puts) by exact Fputs.
    rewrite (filter_none _ joins).
    2:{ eapply Forall_impl; [exact Fjoins |]. intros [] H; simpl in *; tauto. }
    subst puts. rewrite length_replicate. simpl. lia. }
  split.
  { rewrite !filter_app, !length_app.
    rewrite (filter_none _ puts).
    2:{ eapply Forall_impl; [exact Fputs |].
        intros [| [] | | | | |] H; simpl in *; tauto. }
    rewrite (filter_none _ joins).
    2:{ eapply Forall_impl; [exact Fjoins |]. intros [] H; simpl in *; tauto. }
    reflexivity. }
  split.
  { rewrite !in_app_iff. intros [H | [H | [H | [H | H]]]].
    - simpl in H. destruct H as [H | H]; [discriminate | exact H].
    - apply list_elem_of_In in H. rewrite Forall_forall in Fputs.
      exact (Fputs _ H).
    - apply list_elem_of_In in H. rewrite Forall_forall in Fjoins.
      exact (Fjoins _ H).
    - simpl in H. destruct H as [H | H]; [discriminate | exact H].
    - simpl in H. repeat (destruct H as [H | H]; [discriminate |]). exact H. }
  intros accuracy oitems g. apply response_loadgen_waits_for_sentinel.
Qed.

(** * Further properties of the code *)

(** ** Threads and cores *)

Lemma range_length (a b : Z) :
  Z.of_nat (length (Py.range a b)) = Z.max 0 (b - a).
Proof. unfold Py.range. rewrite length_seqZ. lia. Qed.

(** With at least two cores per socket, a worker asks torch for as many
    threads as it has cores in its affinity. *)
Theorem threads_match_affinity (cpus_per_socket : Z) (proc_num : nat) :
  (2 <= cpus_per_socket)%Z ->
  Z.of_nat (length (affinity cpus_per_socket proc_num))
  = num_threads cpus_per_socket proc_num.
Proof.
  intros Hc. unfold affinity, num_threads, Py.round.
  destruct (proc_num =? 0)%nat; rewrite range_length; lia.
Qed.

Lemma threads_match_affinity_witness :
  (2 <= 28)%Z /\ Z.of_nat (length (affinity 28 3)) = num_threads 28 3.
Proof.
  assert (2 <= 28)%Z as H by lia.
  split; [exact H | exact (threads_match_affinity 28 3 H)].
Defined.

(** With at least two cores per socket and [num_sockets] workers, every
    core handed out is one of [2 .. num_sockets * cpus_per_socket - 1]:
    cores 0 and 1 go to no worker, and no worker reaches past the last
    socket. *)
Theorem affinity_within_machine (cpus_per_socket : Z) (num_sockets proc_num : nat)
    (x : Z) :
  (2 <= cpus_per_socket)%Z -> (proc_num < num_sockets)%nat ->
  x ∈ affinity cpus_per_socket proc_num ->
  (2 <= x < Z.of_nat num_sockets * cpus_per_socket)%Z.
Proof.
  intros Hc Hp Hx. rewrite elem_of_affinity in Hx.
  destruct (decide (proc_num = 0%nat)); nia.
Qed.

Lemma affinity_within_machine_witness :
  (2 <= 28)%Z /\ (7 < 8)%nat /\ 200%Z ∈ affinity 28 7
  /\ (2 <= 200 < Z.of_nat 8 * 28)%Z.
Proof.
  assert (2 <= 28)%Z as H1 by lia.
  assert (7 < 8)%nat as H2 by lia.
  assert (200%Z ∈ affinity 28 7) as H3 by (apply elem_of_affinity; simpl; lia).
  split; [exact H1 |]. split; [exact H2 |]. split; [exact H3 |].
  exact (affinity_within_machine 28 8 7 200 H1 H2 H3).
Defined.

(** Every core from 2 up to the last one of the last socket belongs to
    exactly the worker of its socket. *)
Theorem affinity_covers_machine (cpus_per_socket : Z) (num_sockets : nat) (x : Z) :
  (2 <= cpus_per_socket)%Z ->
  (2 <= x < Z.of_nat num_sockets * cpus_per_socket)%Z ->
  (Z.to_nat (x / cpus_per_socket) < num_sockets)%nat
  /\ x ∈ affinity cpus_per_socket (Z.to_nat (x / cpus_per_socket)).
Proof.
  intros Hc Hx.
  pose proof (Z.div_mod x cpus_per_socket ltac:(lia)) as Hdm.
  pose proof (Z.mod_pos_bound x cpus_per_socket ltac:(lia)) as Hm.
  assert (0 <= x / cpus_per_socket)%Z as Hq by (apply Z.div_pos; lia).
  split; [nia |].
  rewrite elem_of_affinity.
  destruct (decide (Z.to_nat (x / cpus_per_socket) = 0%nat)) as [H0 | H0].
  - assert (x / cpus_per_socket = 0)%Z by lia. nia.
  - rewrite Z2Nat.id by assumption. nia.
Qed.

Lemma affinity_covers_machine_witness :
  (2 <= 28)%Z /\ (2 <= 57 < Z.of_nat 8 * 28)%Z
  /\ 57%Z ∈ affinity 28 (Z.to_nat (57 / 28)).
Proof.
  assert (2 <= 28)%Z as H1 by lia.
  assert (2 <= 57 < Z.of_nat 8 * 28)%Z as H2 by lia.
  split; [exact H1 |]. split; [exact H2 |].
  exact (proj2 (affinity_covers_machine 28 8 57 H1 H2)).
Defined.

(** ** More on the worker *)

Lemma tobytes_app (a b : list (list f32)) :
  tobytes (a ++ b) = tobytes a ++ tobytes b.
Proof. unfold tobytes. now rewrite map_app, concat_app. Qed.

Lemma slice_from_zero {A : Type} (l : list A) (e : Z) :
  (0 <= e <= Z.of_nat (length l))%Z -> Py.slice l 0 e = take (Z.to_nat e) l.
Proof.
  intros He. rewrite slice_within by lia.
  simpl. rewrite drop_0. f_equal. lia.
Qed.

(** Consecutive spans of a buffer, laid end to end, are its prefix up to
    the last offset. *)
Lemma concat_spans {A : Type} (buf : list A) (offs : list Z) (m : nat) :
  offs !!! 0%nat = 0%Z ->
  (forall j, (j < m)%nat ->
     (0 <= offs !!! j <= offs !!! (j + 1)%nat)%Z
     /\ (offs !!! (j + 1)%nat <= Z.of_nat (length buf))%Z) ->
  concat (map (fun j => Py.slice buf (offs !!! j) (offs !!! (j + 1)%nat)) (seq 0 m))
  = take (Z.to_nat (offs !!! m)) buf.
Proof.
  intros H0 Hmono. induction m as [| m IH].
  - simpl. rewrite H0. reflexivity.
  - rewrite seq_S, map_app, concat_app, IH by (intros j Hj; apply Hmono; lia).
    cbn [map concat Nat.add]. rewrite app_nil_r.
    destruct (Hmono m ltac:(lia)) as [Hm Hb].
    rewrite slice_within by assumption.
    rewrite take_take_drop.
    replace (m + 1)%nat with (S m) in * by lia. f_equal. lia.
Qed.

Section MoreConsumerFacts.

Context {Input : Type}.
Variable get_samples : list Z -> Input * list f32 * list Z.
Variable predict : Input -> option (list f32).
Variable f32_round : f32 -> f32.
Variable f32_eqb : f32 -> f32 -> bool.

Local Abbreviation try_suite' := (try_suite predict f32_round f32_eqb).
Local Abbreviation run_item' := (run_item get_samples predict f32_round f32_eqb).
Local Abbreviation run_loop' := (run_loop get_samples predict f32_round f32_eqb).
Local Abbreviation run' := (run get_samples predict f32_round f32_eqb).
Local Abbreviation well_formed' := (well_formed get_samples).

(** An item with at least one query id whose offset table has no more
    entries than the item has query ids kills the worker inside the
    [finally] suite: whatever [predict] did, no outcome is put for the item,
    [task_done] is not called for it, and nothing behind it on the work
    queue is pulled. *)
Theorem short_offset_table_kills_worker (accuracy : bool) (clock : nat -> Z)
    (k : nat) (qitem : Item) (gets : TaskQueue) (w : Worker) :
  query_id qitem <> [] ->
  (length (offsets_of get_samples qitem) <= length (query_id qitem))%nat ->
  run_item' accuracy (clock k) qitem = None
  /\ run_loop' accuracy clock k (Some qitem :: gets) w
     = mkWorker (result_queue w) (tasks_done w) Crashed.
Proof.
  intros Hne Hlen.
  assert (run_item' accuracy (clock k) qitem = None) as Hrun.
  { unfold run_item, offsets_of in *.
    destruct (get_samples (content_id qitem)) as [[X batch_T] offs].
    cbn [snd] in Hlen.
    destruct (try_suite' accuracy (clock k) qitem X batch_T (mkLocals 0 0 [] 0))
      as [completed l1].
    rewrite response_loop_index_error by (auto; simpl; lia).
    reflexivity. }
  split; [exact Hrun |]. simpl. now rewrite Hrun.
Qed.

Lemma run_loop_through_sentinel (accuracy : bool) (clock : nat -> Z)
    (items : list Item) (rest : TaskQueue) :
  Forall well_formed' items ->
  forall (k : nat) (w : Worker),
    status w = Running ->
    exists oitems : list OItem.t,
      run_loop' accuracy clock k (map Some items ++ None :: rest) w
      = mkWorker (result_queue w ++ map Some oitems)
                 (S (tasks_done w + length items)) Exited
      /\ run_loop' accuracy clock k (map Some items) w
         = mkWorker (result_queue w ++ map Some oitems)
                    (tasks_done w + length items) Running
      /\ Forall2 (fun qitem oitem =>
                    OItem.query_ids oitem = query_id qitem
                    /\ length (OItem.array_ref oitem)
                       = length (query_id qitem))
                 items oitems.
Proof.
  induction 1 as [| qitem items [Hq Ho] _ IH]; intros k w Hw.
  - exists []. cbn [map app length run_loop].
    rewrite app_nil_r, Nat.add_0_r.
    split; [reflexivity |].
    split; [destruct w; simpl in *; now subst | constructor].
  - destruct (run_item_answers get_samples predict f32_round f32_eqb
                accuracy (clock k) qitem ltac:(lia))
      as (oitem & Hrun & Hids & Hrefs).
    destruct (IH (S k)
                (mkWorker (put (Some oitem) (result_queue w))
                          (S (tasks_done w)) Running) eq_refl)
      as (oitems & Hloop1 & Hloop2 & Hall).
    exists (oitem :: oitems). cbn [map app].
    rewrite !(run_loop_item _ _ _ _ _ _ _ _ _ _ oitem Hrun), Hloop1, Hloop2.
    cbn [result_queue tasks_done length]. unfold put. rewrite <- !app_assoc.
    split; [cbn [app]; do 2 f_equal; lia |].
    split; [cbn [app]; f_equal; lia |].
    constructor; auto.
Qed.

(** The worker up to and past the sentinel: after a run of well-formed
    items followed by [None] it has put one outcome per item, has called
    [task_done] once per [get] (the one for the sentinel included), has
    exited, and has touched nothing that was queued behind the sentinel. *)
Theorem sentinel_stops_worker (accuracy : bool) (clock : nat -> Z)
    (items : list Item) (rest : TaskQueue) :
  Forall well_formed' items ->
  exists oitems : list OItem.t,
    run' accuracy clock (map Some items ++ None :: rest)
    = mkWorker (map Some oitems) (S (length items)) Exited
    /\ run' accuracy clock (map Some items)
       = mkWorker (map Some oitems) (length items) Running
    /\ Forall2 (fun qitem oitem =>
                  OItem.query_ids oitem = query_id qitem
                  /\ length (OItem.array_ref oitem) = length (query_id qitem))
               items oitems.
Proof.
  intros Hwf. unfold run.
  destruct (run_loop_through_sentinel accuracy clock items rest Hwf 0%nat
              (mkWorker [] 0 Running) eq_refl)
    as (oitems & H1 & H2 & H3).
  exists oitems. rewrite H1, H2. auto.
Qed.

(** On an offset table that starts at 0, never decreases and ends at the
    number of rows, the payloads of a completed item laid end to end are
    the serialisation of the whole (result, target) buffer: every row is
    sent exactly once, in order. *)
Theorem payloads_partition_buffer (accuracy : bool) (now : Z) (qitem : Item)
    (X : Input) (batch_T : list f32) (offs : list Z) (results : list f32) :
  get_samples (content_id qitem) = (X, batch_T, offs) ->
  predict X = Some results ->
  length batch_T = length results ->
  length offs = S (length (query_id qitem)) ->
  offs !!! 0%nat = 0%Z ->
  offs !!! length (query_id qitem) = Z.of_nat (length results) ->
  (forall j, (j < length (query_id qitem))%nat ->
     (offs !!! j <= offs !!! (j + 1)%nat)%Z) ->
  exists oitem : OItem.t,
    run_item' accuracy now qitem = Some oitem
    /\ concat (OItem.array_ref oitem)
       = tobytes (zip_with (fun r t => [r; t]) results batch_T)
    /\ length (concat (OItem.array_ref oitem)) = (8 * length results)%nat.
Proof.
  intros Hg Hp Hlen Hoffs H0 Hlast Hmono.
  set (m := length (query_id qitem)) in *.
  set (buf := zip_with (fun r t : f32 => [r; t]) results batch_T).
  assert (length buf = length results) as Hbuf
    by (subst buf; now apply cat_rows_length).
  assert (forall j, (j <= m)%nat ->
            (0 <= offs !!! j <= Z.of_nat (length results))%Z) as Hrange.
  { intros j Hj. split.
    - induction j as [| j IH]; [lia |].
      specialize (Hmono j ltac:(lia)). specialize (IH ltac:(lia)).
      replace (j + 1)%nat with (S j) in Hmono by lia. lia.
    - rewrite <- Hlast.
      remember (m - j)%nat as d eqn:Hd. revert j Hj Hd.
      induction d as [| d IH]; intros j Hj Hd.
      + replace j with m by lia. lia.
      + specialize (IH (S j) ltac:(lia) ltac:(lia)).
        specialize (Hmono j ltac:(lia)).
        replace (j + 1)%nat with (S j) in Hmono by lia. lia. }
  eexists. split; [apply (run_item_success _ _ _ _ _ _ _ X batch_T offs results);
                   auto; lia |].
  cbn [OItem.array_ref]. fold m. fold buf.
  assert (concat (map (fun j => tobytes (Py.slice buf (offs !!! j)
                                                  (offs !!! (j + 1)%nat)))
                      (seq 0 m))
          = tobytes buf) as Hcat.
  { transitivity (tobytes (concat
        (map (fun j => Py.slice buf (offs !!! j) (offs !!! (j + 1)%nat))
             (seq 0 m)))).
    - generalize (seq 0 m). intros l. induction l as [| j l IH];
        [reflexivity |].
      cbn [map concat]. now rewrite tobytes_app, IH.
    - rewrite concat_spans.
      + rewrite take_ge; [reflexivity |]. rewrite Hbuf. lia.
      + exact H0.
      + intros j Hj. rewrite Hbuf.
        pose proof (Hrange j ltac:(lia)). pose proof (Hrange (j + 1)%nat ltac:(lia)).
        specialize (Hmono j Hj). lia. }
  split; [exact Hcat |].
  rewrite Hcat, (tobytes_length 2) by apply cat_rows_width. lia.
Qed.

End MoreConsumerFacts.

Section FailureFacts.

Context {Input : Type}.
Variable get_samples : list Z -> Input * list f32 * list Z.
Variable predict : Input -> option (list f32).
Variable f32_round : f32 -> f32.
Variable f32_eqb : f32 -> f32 -> bool.

Local Abbreviation try_suite' := (try_suite predict f32_round f32_eqb).
Local Abbreviation run_item' := (run_item get_samples predict f32_round f32_eqb).

Lemma torch_eq_mismatch (a b : list f32) :
  length a <> length b -> length a <> 1%nat -> length b <> 1%nat ->
  torch_eq f32_eqb a b = None.
Proof.
  intros Hab Ha Hb.
  destruct a as [| x [| x' a]], b as [| y [| y' b]];
    simpl in *; try congruence; try reflexivity.
  destruct (Nat.eqb_spec (length a) (length b)); [lia | reflexivity].
Qed.

Lemma torch_cat1_mismatch (a b : list f32) :
  length b <> length a -> torch_cat1 a b = None.
Proof.
  intros H. unfold torch_cat1.
  destruct (Nat.eqb_spec (length a) (length b)); [congruence | reflexivity].
Qed.

(** When [predict] returns but the ground truth has another number of rows,
    post-processing raises: every query gets an empty payload, yet the
    outcome's total is the number of rows [predict] returned, because
    [total] was assigned before the raise. Its good is 0 unless one of the
    two tensors has exactly one row (the comparison then broadcasts and it
    is the concatenation that raises). *)
Theorem row_mismatch_counts_rows_without_payload (accuracy : bool) (now : Z)
    (qitem : Item) (X : Input) (batch_T : list f32) (offs : list Z)
    (results : list f32) :
  get_samples (content_id qitem) = (X, batch_T, offs) ->
  predict X = Some results ->
  length batch_T <> length results ->
  (length (query_id qitem) < length offs)%nat ->
  exists oitem : OItem.t,
    run_item' accuracy now qitem = Some oitem
    /\ OItem.array_ref oitem = replicate (length (query_id qitem)) []
    /\ OItem.total oitem = length results
    /\ (length results <> 1%nat -> length batch_T <> 1%nat ->
          OItem.good oitem = 0%nat).
Proof.
  intros Hg Hp Hlen Hoffs.
  destruct (torch_eq f32_eqb (map f32_round results) batch_T) as [hits |] eqn:He.
  - assert (try_suite' accuracy now qitem X batch_T (mkLocals 0 0 [] 0)
            = (false, mkLocals (nonzero_size0 hits) (length results) [] 0)) as Ht.
    { unfold try_suite. rewrite Hp, He, torch_cat1_mismatch by assumption.
      reflexivity. }
    eexists. split; [exact (run_item_failure _ _ _ _ _ _ _ _ _ _ _ Hg Ht Hoffs) |].
    cbn [OItem.array_ref OItem.total OItem.good total good].
    split; [reflexivity |]. split; [reflexivity |].
    intros H1 H2. rewrite torch_eq_mismatch in He; [discriminate | | |];
      rewrite ?length_map; congruence.
  - assert (try_suite' accuracy now qitem X batch_T (mkLocals 0 0 [] 0)
            = (false, mkLocals 0 (length results) [] 0)) as Ht.
    { unfold try_suite. now rewrite Hp, He. }
    eexists. split; [exact (run_item_failure _ _ _ _ _ _ _ _ _ _ _ Hg Ht Hoffs) |].
    cbn [OItem.array_ref OItem.total OItem.good total good].
    repeat split; reflexivity.
Qed.

(** The accuracy flag and the clock change neither what is sent back for
    an item nor what it adds to the counters: good, total, query ids and
    payloads are the same in both modes (only [timing] and [presults]
    differ). *)
Theorem accuracy_mode_keeps_answer (accuracy : bool) (now now' : Z) (qitem : Item) :
  option_map answer (run_item' accuracy now qitem)
  = option_map answer (run_item' false now' qitem).
Proof.
  unfold run_item, try_suite.
  destruct (get_samples (content_id qitem)) as [[X batch_T] offs].
  destruct (predict X) as [results |].
  - destruct (torch_eq f32_eqb (map f32_round results) batch_T) as [hits |].
    + destruct (torch_cat1 results batch_T) as [cat |].
      * destruct accuracy; cbn [presults good total result_timing set_presults
                                set_good set_total set_result_timing];
          destruct (response_loop _ _ _ _ _); reflexivity.
      * cbn [except_suite presults good total result_timing set_presults
             set_good set_total].
        destruct (response_loop _ _ _ _ _); reflexivity.
    + cbn [except_suite presults good total result_timing set_presults set_total].
      destruct (response_loop _ _ _ _ _); reflexivity.
  - cbn [except_suite presults good total result_timing set_presults].
    destruct (response_loop _ _ _ _ _); reflexivity.
Qed.

End FailureFacts.

Lemma short_offset_table_kills_worker_witness :
  query_id (mkItem [1; 2; 3] [0; 1] 0)%Z <> []
  /\ (length (offsets_of Toy.get_samples (mkItem [1; 2; 3] [0; 1] 0)%Z)
      <= length (query_id (mkItem [1; 2; 3] [0; 1] 0)%Z))%nat
  /\ Toy.run_item false 0 (mkItem [1; 2; 3] [0; 1] 0)%Z = None.
Proof.
  assert (query_id (mkItem [1; 2; 3] [0; 1] 0)%Z <> []) as H1 by discriminate.
  assert (length (offsets_of Toy.get_samples (mkItem [1; 2; 3] [0; 1] 0)%Z)
          <= length (query_id (mkItem [1; 2; 3] [0; 1] 0)%Z))%nat as H2
    by (vm_compute; lia).
  split; [exact H1 |]. split; [exact H2 |].
  exact (proj1 (short_offset_table_kills_worker Toy.get_samples Toy.predict
                  Toy.f32_round Toy.f32_eqb false (fun _ => 0%Z) 0
                  (mkItem [1; 2; 3] [0; 1] 0)%Z [] (mkWorker [] 0 Running) H1 H2)).
Defined.

Lemma sentinel_stops_worker_witness :
  Forall (well_formed Toy.get_samples) [Toy.poisoned; Toy.ten_queries]
  /\ exists oitems : list OItem.t,
       Toy.run false (fun _ => 0%Z)
         (map Some [Toy.poisoned; Toy.ten_queries] ++ None :: [Some Toy.poisoned])
       = mkWorker (map Some oitems) 3 Exited.
Proof.
  split; [exact toy_items_well_formed |].
  destruct (sentinel_stops_worker Toy.get_samples Toy.predict Toy.f32_round
              Toy.f32_eqb false (fun _ => 0%Z) [Toy.poisoned; Toy.ten_queries]
              [Some Toy.poisoned] toy_items_well_formed)
    as (oitems & H & _).
  exists oitems. exact H.
Defined.

Lemma toy_offsets_nondecreasing (j : nat) :
  (j < 10)%nat ->
  ([0; 1; 3; 6; 7; 10; 14; 15; 19; 22; 25]%Z !!! j
   <= [0; 1; 3; 6; 7; 10; 14; 15; 19; 22; 25]%Z !!! (j + 1)%nat)%Z.
Proof.
  intros Hj.
  do 10 (destruct j as [| j]; [vm_compute; discriminate |]). lia.
Qed.

Lemma payloads_partition_buffer_witness :
  Toy.get_samples (content_id Toy.ten_queries)
  = (Toy.rows (content_id Toy.ten_queries),
     map (fun r => if Z.even r then Toy.one else Toy.zero)
         (Toy.rows (content_id Toy.ten_queries)),
     [0; 1; 3; 6; 7; 10; 14; 15; 19; 22; 25]%Z)
  /\ Toy.predict (Toy.rows (content_id Toy.ten_queries))
     = Some (replicate 25 Toy.one)
  /\ exists oitem : OItem.t,
       Toy.run_item false 0 Toy.ten_queries = Some oitem
       /\ length (concat (OItem.array_ref oitem)) = (8 * 25)%nat.
Proof.
  assert (Toy.get_samples (content_id Toy.ten_queries)
          = (Toy.rows (content_id Toy.ten_queries),
             map (fun r => if Z.even r then Toy.one else Toy.zero)
                 (Toy.rows (content_id Toy.ten_queries)),
             [0; 1; 3; 6; 7; 10; 14; 15; 19; 22; 25]%Z)) as H1 by reflexivity.
  assert (Toy.predict (Toy.rows (content_id Toy.ten_queries))
          = Some (replicate 25 Toy.one)) as H2 by reflexivity.
  split; [exact H1 |]. split; [exact H2 |].
  destruct (payloads_partition_buffer Toy.get_samples Toy.predict
              Toy.f32_round Toy.f32_eqb false 0 Toy.ten_queries _ _ _ _
              H1 H2 eq_refl eq_refl eq_refl eq_refl toy_offsets_nondecreasing)
    as (oitem & Hrun & _ & Hlen).
  exists oitem. split; [exact Hrun | exact Hlen].
Defined.

Lemma row_mismatch_counts_rows_without_payload_witness :
  short_truth (content_id Toy.ten_queries)
  = (Toy.rows (content_id Toy.ten_queries),
     removelast (map (fun r => if Z.even r then Toy.one else Toy.zero)
                     (Toy.rows (content_id Toy.ten_queries))),
     [0; 1; 3; 6; 7; 10; 14; 15; 19; 22; 25]%Z)
  /\ Toy.predict (Toy.rows (content_id Toy.ten_queries))
     = Some (replicate 25 Toy.one)
  /\ exists oitem : OItem.t,
       run_item short_truth Toy.predict Toy.f32_round Toy.f32_eqb
         false 0 Toy.ten_queries = Some oitem
       /\ OItem.array_ref oitem = replicate 10 []
       /\ OItem.total oitem = 25%nat
       /\ OItem.good oitem = 0%nat.
Proof.
  assert (short_truth (content_id Toy.ten_queries)
          = (Toy.rows (content_id Toy.ten_queries),
             removelast (map (fun r => if Z.even r then Toy.one else Toy.zero)
                             (Toy.rows (content_id Toy.ten_queries))),
             [0; 1; 3; 6; 7; 10; 14; 15; 19; 22; 25]%Z)) as H1 by reflexivity.
  assert (Toy.predict (Toy.rows (content_id Toy.ten_queries))
          = Some (replicate 25 Toy.one)) as H2 by reflexivity.
  split; [exact H1 |]. split; [exact H2 |].
  destruct (row_mismatch_counts_rows_without_payload short_truth Toy.predict
              Toy.f32_round Toy.f32_eqb false 0 Toy.ten_queries _ _ _ _
              H1 H2 ltac:(vm_compute; discriminate) ltac:(vm_compute; lia))
    as (oitem & Hrun & Hrefs & Htotal & Hgood).
  exists oitem. split; [exact Hrun |]. split; [exact Hrefs |].
  split; [exact Htotal |].
  apply Hgood; vm_compute; discriminate.
Defined.

(** ** The collector *)

Lemma response_loadgen_app (accuracy : bool) (oitems : list OItem.t)
    (rest : list (option OItem.t)) (g : Aggregate) :
  response_loadgen accuracy (map Some oitems ++ rest) g
  = response_loadgen accuracy rest (collect_all accuracy oitems g).
Proof.
  unfold collect_all. revert g.
  induction oitems as [| o oitems IH]; intros g; [reflexivity |].
  simpl. apply IH.
Qed.

Lemma collected_counters (accuracy : bool) (oitems : list OItem.t) (g : Aggregate) :
  item_good (collect_all accuracy oitems g)
  = (item_good g + sum_nat (map OItem.good oitems))%nat
  /\ item_total (collect_all accuracy oitems g)
     = (item_total g + sum_nat (map OItem.total oitems))%nat
  /\ completed (collect_all accuracy oitems g)
     = completed g ++ map response_batch oitems.
Proof.
  unfold collect_all. revert g.
  induction oitems as [| o oitems IH]; intros g.
  - simpl. rewrite app_nil_r. repeat split; lia.
  - cbn [foldl map].
    destruct (IH (collect accuracy o g)) as (Hg & Ht & Hc).
    rewrite Hg, Ht, Hc. unfold collect.
    cbn [item_good item_total completed]. fold (response_batch o).
    rewrite <- app_assoc. unfold sum_nat. cbn [foldr].
    split; [lia |]. split; [lia | reflexivity].
Qed.

Lemma collected_samples (accuracy : bool) (oitems : list OItem.t) (g : Aggregate) :
  item_timing (collect_all accuracy oitems g)
  = item_timing g ++ (if accuracy then map OItem.timing oitems else [])
  /\ item_results (collect_all accuracy oitems g)
     = item_results g ++ (if accuracy then map OItem.presults oitems else []).
Proof.
  unfold collect_all. revert g.
  induction oitems as [| o oitems IH]; intros g.
  - simpl. destruct accuracy; now rewrite !app_nil_r.
  - cbn [foldl map]. destruct (IH (collect accuracy o g)) as (Ht & Hr).
    rewrite Ht, Hr. unfold collect. cbn [item_timing item_results].
    destruct accuracy; rewrite <- ?app_assoc; split; reflexivity.
Qed.

Lemma sum_nat_perm (l l' : list nat) : l ≡ₚ l' -> sum_nat l = sum_nat l'.
Proof.
  induction 1; simpl in *; lia.
Qed.

(** The collector adds up what the outcomes carry, hands over one batch of
    responses per outcome in arrival order, and stops at the sentinel:
    whatever is queued behind it changes nothing. *)
Theorem collector_adds_up_and_stops (accuracy : bool) (oitems : list OItem.t)
    (rest : list (option OItem.t)) (g : Aggregate) :
  exists g' : Aggregate,
    response_loadgen accuracy (map Some oitems ++ None :: rest) g = (true, g')
    /\ response_loadgen accuracy (map Some oitems) g = (false, g')
    /\ item_good g' = (item_good g + sum_nat (map OItem.good oitems))%nat
    /\ item_total g' = (item_total g + sum_nat (map OItem.total oitems))%nat
    /\ completed g' = completed g ++ map response_batch oitems.
Proof.
  exists (collect_all accuracy oitems g).
  split; [now rewrite response_loadgen_app |].
  split.
  { rewrite <- (app_nil_r (map Some oitems)). now rewrite response_loadgen_app. }
  apply collected_counters.
Qed.

(** The order in which outcomes reach the collector does not matter for
    the counters: any rearrangement of the same outcomes leaves good and
    total the same. *)
Theorem counters_ignore_arrival_order (accuracy : bool)
    (oitems oitems' : list OItem.t) (g : Aggregate) :
  oitems ≡ₚ oitems' ->
  item_good (response_loadgen accuracy (map Some oitems ++ [None]) g).2
  = item_good (response_loadgen accuracy (map Some oitems' ++ [None]) g).2
  /\ item_total (response_loadgen accuracy (map Some oitems ++ [None]) g).2
     = item_total (response_loadgen accuracy (map Some oitems' ++ [None]) g).2.
Proof.
  intros Hperm. rewrite !response_loadgen_app. cbn [response_loadgen snd].
  destruct (collected_counters accuracy oitems g) as (Hg & Ht & _).
  destruct (collected_counters accuracy oitems' g) as (Hg' & Ht' & _).
  rewrite Hg, Ht, Hg', Ht'.
  split; f_equal; apply sum_nat_perm; now apply fmap_Permutation.
Qed.

Lemma counters_ignore_arrival_order_witness :
  [OItem.mk 1 3 0 [] [1]%Z [[]]; OItem.mk 0 2 0 [] [2]%Z [[]]]
  ≡ₚ [OItem.mk 0 2 0 [] [2]%Z [[]]; OItem.mk 1 3 0 [] [1]%Z [[]]]
  /\ item_total
       (response_loadgen false
          (map Some [OItem.mk 1 3 0 [] [1]%Z [[]]; OItem.mk 0 2 0 [] [2]%Z [[]]]
           ++ [None]) Toy.empty_aggregate).2
     = item_total
         (response_loadgen false
            (map Some [OItem.mk 0 2 0 [] [2]%Z [[]]; OItem.mk 1 3 0 [] [1]%Z [[]]]
             ++ [None]) Toy.empty_aggregate).2.
Proof.
  assert ([OItem.mk 1 3 0 [] [1]%Z [[]]; OItem.mk 0 2 0 [] [2]%Z [[]]]
          ≡ₚ [OItem.mk 0 2 0 [] [2]%Z [[]]; OItem.mk 1 3 0 [] [1]%Z [[]]]) as H
    by apply Permutation_swap.
  split; [exact H |].
  exact (proj2 (counters_ignore_arrival_order false _ _ Toy.empty_aggregate H)).
Defined.

(** In performance mode the collector never stores a timing or a raw
    result; in accuracy mode it stores exactly one of each per outcome,
    in arrival order. *)
Theorem collector_samples_by_mode (accuracy : bool) (oitems : list OItem.t)
    (g : Aggregate) :
  item_timing (response_loadgen accuracy (map Some oitems ++ [None]) g).2
  = item_timing g ++ (if accuracy then map OItem.timing oitems else [])
  /\ item_results (response_loadgen accuracy (map Some oitems ++ [None]) g).2
     = item_results g ++ (if accuracy then map OItem.presults oitems else []).
Proof.
  rewrite response_loadgen_app. cbn [response_loadgen snd].
  apply collected_samples.
Qed.

Lemma response_batch_aligned (oitem : OItem.t) :
  length (OItem.array_ref oitem) = length (OItem.query_ids oitem) ->
  map resp_id (response_batch oitem) = OItem.query_ids oitem
  /\ map resp_data (response_batch oitem) = OItem.array_ref oitem.
Proof.
  unfold response_batch.
  generalize (OItem.query_ids oitem) (OItem.array_ref oitem).
  intros ids. induction ids as [| q ids IH]; intros [| a refs] Hlen;
    simpl in *; try discriminate; try (split; reflexivity).
  destruct (IH refs ltac:(lia)) as [H1 H2]. now rewrite H1, H2.
Qed.

(** The batch handed to [QuerySamplesComplete] for an outcome pairs ids and
    payloads by position and stops at the shorter of the two sequences;
    each response announces the byte length of its own payload. With as
    many payloads as ids, the ids of the batch are the outcome's query ids
    in order and the buffers are its payloads in order. *)
Theorem response_batch_pairs_by_position (accuracy : bool) (oitem : OItem.t)
    (g : Aggregate) :
  completed (collect accuracy oitem g) = completed g ++ [response_batch oitem]
  /\ length (response_batch oitem)
     = Nat.min (length (OItem.query_ids oitem)) (length (OItem.array_ref oitem))
  /\ Forall (fun r => resp_size r = length (resp_data r)) (response_batch oitem)
  /\ (forall i r, response_batch oitem !! i = Some r ->
        OItem.query_ids oitem !! i = Some (resp_id r)
        /\ OItem.array_ref oitem !! i = Some (resp_data r))
  /\ (length (OItem.array_ref oitem) = length (OItem.query_ids oitem) ->
        map resp_id (response_batch oitem) = OItem.query_ids oitem
        /\ map resp_data (response_batch oitem) = OItem.array_ref oitem).
Proof.
  split; [reflexivity |].
  split; [unfold response_batch; now rewrite length_map, length_zip |].
  split.
  { unfold response_batch. apply Forall_fmap, Forall_true.
    intros [q arr]. reflexivity. }
  split; [| apply response_batch_aligned].
  unfold response_batch. intros i r Hi.
  rewrite list_lookup_fmap in Hi.
  destruct (zip (OItem.query_ids oitem) (OItem.array_ref oitem) !! i)
    as [[q arr] |] eqn:Hz; [| discriminate].
  injection Hi as <-. cbn [resp_id resp_data].
  apply lookup_zip_with_Some in Hz.
  destruct Hz as (q' & arr' & Heq & Hq & Ha). injection Heq as -> ->. auto.
Qed.

(** ** From [enqueue] to the load generator *)

Lemma answered_ids (items : list Item) (oitems : list OItem.t) :
  Forall2 (fun qitem oitem =>
             OItem.query_ids oitem = query_id qitem
             /\ length (OItem.array_ref oitem) = length (query_id qitem))
          items oitems ->
  concat (map (map resp_id) (map response_batch oitems))
  = concat (map query_id items).
Proof.
  induction 1 as [| qitem oitem items oitems [Hids Hlen] _ IH]; [reflexivity |].
  cbn [map concat]. rewrite IH. f_equal.
  rewrite <- Hids. apply response_batch_aligned. congruence.
Qed.

Section Pipeline.

Context {Input : Type}.
Variable get_samples : list Z -> Input * list f32 * list Z.
Variable predict : Input -> option (list f32).
Variable f32_round : f32 -> f32.
Variable f32_eqb : f32 -> f32 -> bool.

Local Abbreviation run' := (run get_samples predict f32_round f32_eqb).

(** One call of [enqueue] on an empty work queue, one worker that takes
    everything pushed and then the sentinel, and the collector behind it:
    on a dataset that answers one span per sample ref, with a positive
    maximum batch size and equal-length, non-empty query ids and sample
    refs, the worker exits after one [task_done] per [get], and the ids the
    collector hands to the load generator, batch after batch, are exactly
    the query ids that were issued, each once and in the order of issue,
    whether or not predictions fail. *)
Theorem issued_queries_are_answered_in_order (accuracy : bool)
    (clock clock' : nat -> Z) (B : Z) (qs idx : list Z) (g : Aggregate) :
  one_span_per_ref get_samples ->
  (0 < B)%Z -> qs <> [] -> length qs = length idx ->
  exists (runner' : QueueRunner) (w : Worker) (g' : Aggregate),
    enqueue (mkQueueRunner [] B) clock qs idx = Some runner'
    /\ run' accuracy clock' (inQueue runner' ++ [None]) = w
    /\ status w = Exited
    /\ Z.of_nat (tasks_done w) = (ceil_div (Z.of_nat (length qs)) B + 1)%Z
    /\ response_loadgen accuracy (result_queue w ++ [None]) g = (true, g')
    /\ completed_ids g' = completed_ids g ++ qs
    /\ Z.of_nat (length (completed g'))
       = (Z.of_nat (length (completed g)) + ceil_div (Z.of_nat (length qs)) B)%Z.
Proof.
  intros Hds HB Hne Hlen.
  pose proof (enqueue_pushes_chunks (mkQueueRunner [] B) clock qs idx HB Hne Hlen)
    as Henq.
  cbn [max_batchsize inQueue app] in Henq.
  set (c := Z.to_nat (ceil_div (Z.of_nat (length qs)) B)) in *.
  set (items := map (fun k => mkItem (chunk (Z.to_nat B) k qs)
                                     (chunk (Z.to_nat B) k idx) (clock k))
                    (seq 0 c)) in *.
  assert (0 < Z.of_nat (length qs))%Z as Hn
    by (destruct qs; [congruence | simpl; lia]).
  pose proof (ceil_div_covers (Z.of_nat (length qs)) B HB) as Hcover.
  pose proof (ceil_div_pos (Z.of_nat (length qs)) B HB Hn) as Hcpos.
  assert (Forall (well_formed get_samples) items) as Hwf.
  { subst items. apply Forall_fmap, Forall_true. intros k.
    unfold well_formed, offsets_of, compose. cbn [query_id content_id].
    split; [now rewrite !chunk_length, Hlen | apply Hds]. }
  destruct (run_loop_through_sentinel get_samples predict f32_round f32_eqb
              accuracy clock' items [] Hwf 0%nat (mkWorker [] 0 Running) eq_refl)
    as (oitems & Hrun & _ & Hall).
  cbn [result_queue tasks_done app Nat.add] in Hrun.
  pose proof (Forall2_length _ _ _ Hall) as Hlens.
  assert (length items = c) as Hitems
    by (subst items; now rewrite length_map, length_seq).
  destruct (collected_counters accuracy oitems g) as (_ & _ & Hcompleted).
  eexists. eexists. exists (collect_all accuracy oitems g).
  split; [exact Henq |]. cbn [inQueue].
  split; [reflexivity |]. unfold run. rewrite Hrun.
  cbn [status tasks_done result_queue].
  split; [reflexivity |].
  split; [subst c; lia |].
  split; [now rewrite response_loadgen_app |].
  split.
  { unfold completed_ids. rewrite Hcompleted, map_app, concat_app. f_equal.
    rewrite (answered_ids items oitems Hall).
    subst items. rewrite map_map. cbn [query_id].
    rewrite concat_chunks. apply take_ge. subst c. nia. }
  rewrite Hcompleted, length_app, length_map. subst c. lia.
Qed.

End Pipeline.

Lemma toy_one_span_per_ref : one_span_per_ref Toy.get_samples.
Proof.
  intros refs. unfold Toy.get_samples. cbn [snd].
  generalize 0%Z. induction refs as [| r refs IH]; intros o; [reflexivity |].
  simpl. now rewrite IH.
Qed.

Lemma issued_queries_are_answered_in_order_witness :
  one_span_per_ref Toy.get_samples
  /\ (0 < 2)%Z /\ [7; 8; 9; 10; 11]%Z <> []
  /\ length [7; 8; 9; 10; 11]%Z = length [0; 1; -2; 3; 2]%Z
  /\ exists (runner' : QueueRunner) (w : Worker) (g' : Aggregate),
       enqueue (mkQueueRunner [] 2) (fun _ => 0%Z)
               [7; 8; 9; 10; 11]%Z [0; 1; -2; 3; 2]%Z = Some runner'
       /\ Toy.run false (fun _ => 0%Z) (inQueue runner' ++ [None]) = w
       /\ response_loadgen false (result_queue w ++ [None]) Toy.empty_aggregate
          = (true, g')
       /\ completed_ids g' = [7; 8; 9; 10; 11]%Z.
Proof.
  assert (0 < 2)%Z as H2 by lia.
  assert ([7; 8; 9; 10; 11]%Z <> []) as H3 by discriminate.
  assert (length [7; 8; 9; 10; 11]%Z = length [0; 1; -2; 3; 2]%Z) as H4
    by reflexivity.
  split; [exact toy_one_span_per_ref |]. split; [exact H2 |].
  split; [exact H3 |]. split; [exact H4 |].
  destruct (issued_queries_are_answered_in_order Toy.get_samples Toy.predict
              Toy.f32_round Toy.f32_eqb false (fun _ => 0%Z) (fun _ => 0%Z) 2
              [7; 8; 9; 10; 11]%Z [0; 1; -2; 3; 2]%Z Toy.empty_aggregate
              toy_one_span_per_ref H2 H3 H4)
    as (runner' & w & g' & He & Hr & _ & _ & Hc & Hids & _).
  exists runner', w, g'. repeat split; assumption.
Defined.

(** ** Startup: the two barriers with the workers in the picture *)

Lemma increments_bounds (w : WorkerPc) : (0 <= increments w <= 2)%Z.
Proof. destruct w; simpl; lia. Qed.

Lemma sum_Z_cons (x : Z) (l : list Z) : sum_Z (x :: l) = (x + sum_Z l)%Z.
Proof. reflexivity. Qed.

Lemma sum_increments_bounds (ws : list WorkerPc) :
  (0 <= sum_Z (map increments ws) <= 2 * Z.of_nat (length ws))%Z.
Proof.
  induction ws as [| w ws IH]; [simpl; lia |].
  cbn [map length]. rewrite sum_Z_cons.
  pose proof (increments_bounds w). lia.
Qed.

Lemma sum_increments_insert (ws : list WorkerPc) (i : nat) (w w' : WorkerPc) :
  ws !! i = Some w ->
  sum_Z (map increments (<[i := w']> ws))
  = (sum_Z (map increments ws) - increments w + increments w')%Z.
Proof.
  revert i. induction ws as [| x ws IH]; intros [| i] Hi; try discriminate.
  - injection Hi as ->.
    change (<[0%nat := w']> (w :: ws)) with (w' :: ws).
    cbn [map]. rewrite !sum_Z_cons. lia.
  - change (<[S i := w']> (x :: ws)) with (x :: <[i := w']> ws).
    cbn [map]. rewrite !sum_Z_cons, (IH i Hi). lia.
Qed.

Lemma sum_before_puts (ws : list WorkerPc) :
  Forall before_puts ws ->
  (sum_Z (map increments ws) <= Z.of_nat (length ws))%Z.
Proof.
  induction 1 as [| w ws Hw _ IH]; [simpl; lia |].
  cbn [map length]. rewrite sum_Z_cons.
  destruct w; simpl in *; try contradiction; lia.
Qed.

Lemma all_warmed_at_count (ws : list WorkerPc) :
  Forall before_puts ws ->
  (Z.of_nat (length ws) <= sum_Z (map increments ws))%Z ->
  Forall warmed ws.
Proof.
  induction 1 as [| w ws Hw Hws IH]; [constructor |].
  cbn [map length]. rewrite sum_Z_cons. intros Hsum.
  pose proof (sum_before_puts ws Hws) as Hle.
  destruct w; simpl in *; try contradiction.
  - lia.
  - constructor; [exact I | apply IH; lia].
Qed.

Lemma all_ready_at_count (sample_list : list Z) (ws : list WorkerPc) :
  Forall (holds sample_list) ws ->
  (2 * Z.of_nat (length ws) <= sum_Z (map increments ws))%Z ->
  ws = replicate (length ws) (Ready sample_list).
Proof.
  induction 1 as [| w ws Hw Hws IH]; [reflexivity |].
  cbn [map length]. rewrite sum_Z_cons. intros Hsum.
  pose proof (sum_increments_bounds ws) as Hb.
  pose proof (increments_bounds w) as Hbw.
  cbn [replicate]. rewrite <- IH by lia.
  destruct w; simpl in *; try lia. now subst.
Qed.

Lemma warmed_witness (ws : list WorkerPc) (i : nat) (w : WorkerPc) :
  ws !! i = Some w -> warmed w -> Exists warmed ws.
Proof.
  intros Hi Hw. apply Exists_exists. exists w.
  split; [now apply list_elem_of_lookup_2 with i | assumption].
Qed.

Lemma main_step_inv (num_sockets : nat) (sample_list : list Z) (item_count : Z)
    (now : Z) (s : Sys) :
  sys_inv num_sockets sample_list item_count s ->
  sys_inv num_sockets sample_list item_count
          (main_step num_sockets sample_list now s).
Proof.
  unfold sys_inv, main_step.
  destruct s as [mpc ws puts taken n total st].
  cbn [main_pc sys_workers sys_puts sys_taken sys_counter sys_total_samples
       sys_start_time].
  intros (Hlen & Hsum & Hholds & Htotal & Hbefore & Hpc).
  destruct mpc as [| | p].
  - destruct (Z.ltb_spec n (Z.of_nat num_sockets));
      cbn [main_pc sys_workers sys_puts sys_taken sys_counter sys_total_samples
           sys_start_time]; [tauto |].
    destruct Hpc as [Hputs Hst].
    repeat split; try assumption.
    apply all_warmed_at_count; [now apply Hbefore | lia].
  - cbn [main_pc sys_workers sys_puts sys_taken sys_counter sys_total_samples
         sys_start_time].
    destruct Hpc as (Hputs & Hst & Hwarm).
    repeat split; try assumption; try lia.
    now rewrite Nat.sub_diag.
  - destruct Hpc as [Hwarm Hp]. unfold load_step.
    cbn [pc dsQueue init_counter start_time].
    destruct p as [[| k] | |];
      cbn [pc dsQueue init_counter start_time main_pc sys_workers sys_puts
           sys_taken sys_counter sys_total_samples sys_start_time].
    + destruct Hp as (Hst & _ & Hputs). rewrite Nat.sub_0_r in Hputs.
      repeat split; assumption.
    + destruct Hp as (Hst & Hk & Hputs).
      assert (put sample_list puts = replicate (num_sockets - k) sample_list)
        as Hputs'.
      { rewrite Hputs. unfold put.
        replace (num_sockets - k)%nat with (S (num_sockets - S k)) by lia.
        now rewrite replicate_S_end. }
      repeat split; try assumption; try lia.
      intros Hnil. unfold put in Hnil. destruct puts; discriminate.
    + destruct Hp as (Hst & Hputs).
      destruct (Z.ltb_spec n (2 * Z.of_nat num_sockets));
        cbn [pc dsQueue init_counter start_time];
        repeat split; assumption.
    + repeat split; tauto.
Qed.

Lemma consumer_step_inv (num_sockets : nat) (sample_list : list Z)
    (item_count : Z) (i : nat) (s s' : Sys) :
  consumer_step item_count i s = Some s' ->
  sys_inv num_sockets sample_list item_count s ->
  sys_inv num_sockets sample_list item_count s'.
Proof.
  unfold sys_inv, consumer_step.
  destruct s as [mpc ws puts taken n total st].
  cbn [main_pc sys_workers sys_puts sys_taken sys_counter sys_total_samples
       sys_start_time].
  intros Hstep (Hlen & Hsum & Hholds & Htotal & Hbefore & Hpc).
  destruct (ws !! i) as [w |] eqn:Hi; [| discriminate].
  assert (forall w', Forall warmed ws -> warmed w' ->
                     Forall warmed (<[i := w']> ws)) as Hkeep
    by (intros w' H1 H2; now apply Forall_insert).
  destruct w as [| | sl | sl].
  - (* the end of warmup *)
    injection Hstep as <-.
    cbn [main_pc sys_workers sys_puts sys_taken sys_counter sys_total_samples
         sys_start_time].
    rewrite length_insert, (sum_increments_insert ws i Warming) by assumption.
    split; [assumption |]. split; [simpl; lia |].
    split; [now apply Forall_insert |].
    split; [reflexivity |].
    split; [intros Hnil; apply Forall_insert; [now apply Hbefore | exact I] |].
    destruct mpc as [| | p]; [tauto | |].
    + destruct Hpc as (H1 & H2 & H3). repeat split; auto. now apply Hkeep.
    + destruct Hpc as [H1 H2]. split; [now apply Hkeep |].
      destruct p as [k | |]; [tauto | tauto |].
      destruct H2 as [H2 H3]. split; [assumption | lia].
  - (* ds_queue.get() *)
    destruct (puts !! taken) as [sl |] eqn:Hget; [| discriminate].
    injection Hstep as <-.
    cbn [main_pc sys_workers sys_puts sys_taken sys_counter sys_total_samples
         sys_start_time].
    rewrite length_insert,
      (sum_increments_insert ws i AwaitingSampleLoad) by assumption.
    assert (puts <> []) as Hne by (intros ->; discriminate).
    assert (sl = sample_list) as ->.
    { destruct mpc as [| | p].
      - destruct Hpc as [H1 _]. congruence.
      - destruct Hpc as [H1 _]. congruence.
      - destruct Hpc as [_ Hp].
        assert (exists m, puts = replicate m sample_list) as [m Hm].
        { destruct p as [k | |]; [destruct Hp as (_ & _ & Hp) |
                                  destruct Hp as (_ & Hp) |
                                  destruct Hp as (Hp & _)]; eauto. }
        rewrite Hm in Hget. apply lookup_replicate in Hget. tauto. }
    split; [assumption |]. split; [simpl; lia |].
    split; [apply Forall_insert; [assumption | reflexivity] |].
    split; [intros _; apply Htotal;
            now apply (warmed_witness ws i AwaitingSampleLoad) |].
    split; [intros Hnil; congruence |].
    destruct mpc as [| | p]; [tauto | |].
    + destruct Hpc as (H1 & H2 & H3). repeat split; auto. now apply Hkeep.
    + destruct Hpc as [H1 H2]. split; [now apply Hkeep | exact H2].
  - (* the second increment *)
    injection Hstep as <-.
    cbn [main_pc sys_workers sys_puts sys_taken sys_counter sys_total_samples
         sys_start_time].
    rewrite length_insert, (sum_increments_insert ws i (Loading sl)) by assumption.
    assert (holds sample_list (Loading sl)) as Hsl.
    { rewrite Forall_lookup in Hholds. exact (Hholds i _ Hi). }
    split; [assumption |]. split; [simpl; lia |].
    split; [apply Forall_insert; [assumption | exact Hsl] |].
    split; [intros _; apply Htotal; now apply (warmed_witness ws i (Loading sl)) |].
    split.
    { intros Hnil. specialize (Hbefore Hnil).
      rewrite Forall_lookup in Hbefore. destruct (Hbefore i _ Hi). }
    destruct mpc as [| | p]; [tauto | |].
    + destruct Hpc as (H1 & H2 & H3). repeat split; auto. now apply Hkeep.
    + destruct Hpc as [H1 H2]. split; [now apply Hkeep |].
      destruct p as [k | |]; [tauto | tauto |].
      destruct H2 as [H2 H3]. split; [assumption | lia].
  - discriminate.
Qed.

Lemma sys_reachable_inv (num_sockets : nat) (sample_list : list Z)
    (item_count : Z) (s : Sys) :
  sys_reachable num_sockets sample_list item_count (sys_init num_sockets) s ->
  sys_inv num_sockets sample_list item_count s.
Proof.
  induction 1 as [| s s' _ IH Hstep].
  - unfold sys_inv, sys_init.
    cbn [main_pc sys_workers sys_puts sys_taken sys_counter sys_total_samples
         sys_start_time].
    split; [apply length_replicate |].
    split; [induction num_sockets as [| n IHn]; [reflexivity |];
            cbn [replicate map]; rewrite sum_Z_cons; simpl increments; lia |].
    split; [apply Forall_replicate; exact I |].
    split.
    { intros Hex. apply Exists_exists in Hex. destruct Hex as (w & Hw & Hwarm).
      apply elem_of_replicate in Hw. destruct Hw as [-> _]. destruct Hwarm. }
    split; [intros _; apply Forall_replicate; exact I |].
    split; reflexivity.
  - destruct Hstep as [now s | i s s' Hc].
    + now apply main_step_inv.
    + now apply (consumer_step_inv _ _ _ i s s').
Qed.


(** A start timestamp exists only when every worker has taken the sample
    list that was broadcast, has loaded it and has made its second
    increment: all [num_sockets] workers are past [load_query_samples] with
    that very list, and the counter stands at exactly twice their number. *)
Theorem start_time_means_all_loaded (num_sockets : nat) (sample_list : list Z)
    (item_count : Z) (s : Sys) (t : Z) :
  sys_reachable num_sockets sample_list item_count (sys_init num_sockets) s ->
  sys_start_time s = Some t ->
  sys_workers s = replicate num_sockets (Ready sample_list)
  /\ sys_counter s = (2 * Z.of_nat num_sockets)%Z
  /\ sys_puts s = replicate num_sockets sample_list.
Proof.
  intros Hreach Ht.
  destruct (sys_reachable_inv _ _ _ _ Hreach)
    as (Hlen & Hsum & Hholds & Htotal & Hbefore & Hpc).
  pose proof (sum_increments_bounds (sys_workers s)) as Hb.
  destruct (main_pc s) as [| | p].
  - destruct Hpc as [_ Hst]. congruence.
  - destruct Hpc as (_ & Hst & _). congruence.
  - destruct Hpc as [_ Hp].
    destruct p as [k | |];
      [destruct Hp as (Hst & _); congruence
      | destruct Hp as (Hst & _); congruence |].
    destruct Hp as [Hputs Hcount].
    split; [| split; [lia | exact Hputs]].
    rewrite <- Hlen. apply all_ready_at_count; [exact Hholds | lia].
Qed.

Lemma toy_startup_past_warmup :
  sys_reachable 1 [3; 4]%Z 100 (sys_init 1)
    (mkSys Configuring [AwaitingSampleLoad] [] 0 1 100 None).
Proof.
  apply sys_reach_step
    with (s := mkSys WaitWarmup [AwaitingSampleLoad] [] 0 1 100 None);
    [| exact (sys_step_main 1 [3; 4]%Z 100 0
                (mkSys WaitWarmup [AwaitingSampleLoad] [] 0 1 100 None))].
  apply sys_reach_step with (s := sys_init 1);
    [apply sys_reach_refl |].
  exact (sys_step_consumer 1 [3; 4]%Z 100 0 (sys_init 1)
           (mkSys WaitWarmup [AwaitingSampleLoad] [] 0 1 100 None) eq_refl).
Qed.

Lemma toy_startup_stamped :
  sys_reachable 1 [3; 4]%Z 100 (sys_init 1)
    (mkSys (LoadSamples Returned) [Ready [3; 4]%Z] [[3; 4]%Z] 1 2 100 (Some 77%Z)).
Proof.
  apply sys_reach_step
    with (s := mkSys (LoadSamples Polling) [Ready [3; 4]%Z] [[3; 4]%Z] 1 2 100 None);
    [| exact (sys_step_main 1 [3; 4]%Z 100 77
                (mkSys (LoadSamples Polling) [Ready [3; 4]%Z] [[3; 4]%Z]
                       1 2 100 None))].
  apply sys_reach_step
    with (s := mkSys (LoadSamples Polling) [Loading [3; 4]%Z] [[3; 4]%Z] 1 1 100 None);
    [| exact (sys_step_consumer 1 [3; 4]%Z 100 0
                (mkSys (LoadSamples Polling) [Loading [3; 4]%Z] [[3; 4]%Z]
                       1 1 100 None)
                (mkSys (LoadSamples Polling) [Ready [3; 4]%Z] [[3; 4]%Z]
                       1 2 100 None) eq_refl)].
  apply sys_reach_step
    with (s := mkSys (LoadSamples Polling) [AwaitingSampleLoad] [[3; 4]%Z]
                     0 1 100 None);
    [| exact (sys_step_consumer 1 [3; 4]%Z 100 0
                (mkSys (LoadSamples Polling) [AwaitingSampleLoad] [[3; 4]%Z]
                       0 1 100 None)
                (mkSys (LoadSamples Polling) [Loading [3; 4]%Z] [[3; 4]%Z]
                       1 1 100 None) eq_refl)].
  apply sys_reach_step
    with (s := mkSys (LoadSamples (Broadcasting 0)) [AwaitingSampleLoad]
                     [[3; 4]%Z] 0 1 100 None);
    [| exact (sys_step_main 1 [3; 4]%Z 100 0
                (mkSys (LoadSamples (Broadcasting 0)) [AwaitingSampleLoad]
                       [[3; 4]%Z] 0 1 100 None))].
  apply sys_reach_step
    with (s := mkSys (LoadSamples (Broadcasting 1)) [AwaitingSampleLoad]
                     [] 0 1 100 None);
    [| exact (sys_step_main 1 [3; 4]%Z 100 0
                (mkSys (LoadSamples (Broadcasting 1)) [AwaitingSampleLoad]
                       [] 0 1 100 None))].
  apply sys_reach_step
    with (s := mkSys Configuring [AwaitingSampleLoad] [] 0 1 100 None);
    [| exact (sys_step_main 1 [3; 4]%Z 100 0
                (mkSys Configuring [AwaitingSampleLoad] [] 0 1 100 None))].
  exact toy_startup_past_warmup.
Qed.


Lemma start_time_means_all_loaded_witness :
  sys_reachable 1 [3; 4]%Z 100 (sys_init 1)
    (mkSys (LoadSamples Returned) [Ready [3; 4]%Z] [[3; 4]%Z] 1 2 100 (Some 77%Z))
  /\ [Ready [3; 4]%Z] = replicate 1 (Ready [3; 4]%Z).
Proof.
  split; [exact toy_startup_stamped |].
  exact (proj1 (start_time_means_all_loaded 1 [3; 4]%Z 100 _ 77
                  toy_startup_stamped eq_refl)).
Defined.

(** ** Command-line resolution *)

Lemma fill_defaults_cons (k : string) (v : Value) (d : list (string * Value))
    (a : gmap string Value) :
  fill_defaults ((k, v) :: d) a
  = fill_defaults d (match a !! attr k with
                     | None => <[attr k := v]> a
                     | Some _ => a
                     end).
Proof. reflexivity. Qed.

Lemma fill_defaults_given (d : list (string * Value)) (a : gmap string Value)
    (k : string) (u : Value) :
  a !! k = Some u -> fill_defaults d a !! k = Some u.
Proof.
  revert a. induction d as [| [k0 v0] d IH]; intros a Ha; [exact Ha |].
  rewrite fill_defaults_cons. apply IH.
  destruct (a !! attr k0) eqn:H0; [exact Ha |].
  rewrite lookup_insert_ne; [exact Ha |]. intros Heq. congruence.
Qed.

Lemma fill_defaults_other (d : list (string * Value)) (a : gmap string Value)
    (k : string) :
  k ∉ map (fun kv => attr kv.1) d -> fill_defaults d a !! k = a !! k.
Proof.
  revert a. induction d as [| [k0 v0] d IH]; intros a Hk; [reflexivity |].
  rewrite fill_defaults_cons. cbn [map fst] in Hk.
  apply not_elem_of_cons in Hk. destruct Hk as [Hne Hk].
  rewrite IH by assumption.
  destruct (a !! attr k0); [reflexivity |].
  now rewrite lookup_insert_ne.
Qed.

Lemma fill_defaults_absent (d : list (string * Value)) (a : gmap string Value)
    (k : string) (v : Value) :
  NoDup (map (fun kv => attr kv.1) d) -> (k, v) ∈ d ->
  a !! attr k = None ->
  fill_defaults d a !! attr k = Some v.
Proof.
  revert a. induction d as [| [k0 v0] d IH]; intros a Hnd Hin Ha.
  - apply elem_of_nil in Hin. destruct Hin.
  - rewrite fill_defaults_cons. cbn [map fst] in Hnd.
    apply NoDup_cons in Hnd. destruct Hnd as [Hfresh Hnd].
    apply elem_of_cons in Hin. destruct Hin as [Heq | Hin].
    + injection Heq as -> ->. rewrite Ha.
      apply fill_defaults_given. apply lookup_insert_eq.
    + assert (attr k0 <> attr k) as Hne.
      { intros Heq. apply Hfresh. rewrite Heq.
        apply (list_elem_of_fmap_2 (fun kv : string * Value => attr kv.1) d (k, v)).
        exact Hin. }
      apply IH; [assumption | assumption |].
      destruct (a !! attr k0); [exact Ha |].
      now rewrite lookup_insert_ne.
Qed.

Lemma split_arg_other (name : string) (a a' : gmap string Value) (k : string) :
  split_arg name a = Some a' -> k <> name -> a' !! k = a !! k.
Proof.
  unfold split_arg. intros H Hk.
  destruct (truthy (a !! name)); [| now injection H as <-].
  destruct (a !! name) as [[s | z | l] |]; try discriminate.
  injection H as <-. now rewrite lookup_insert_ne.
Qed.

Lemma split_arg_self (name : string) (a a' : gmap string Value) :
  split_arg name a = Some a' -> a' !! name = split_value <$> a !! name.
Proof.
  unfold split_arg, truthy. intros H.
  destruct (a !! name) as [[s | z | l] |] eqn:Hn; cbn [fmap option_fmap option_map].
  - unfold split_value.
    destruct (String.eqb s "") eqn:Hs; cbn [negb] in H; injection H as <-.
    + exact Hn.
    + now rewrite lookup_insert_eq.
  - destruct (negb (z =? 0)%Z); [discriminate |]. injection H as <-. exact Hn.
  - destruct l; [| discriminate]. injection H as <-. exact Hn.
  - injection H as <-. exact Hn.
Qed.

Lemma dict_get_elem {V : Type} (k : string) (v : V) (d : list (string * V)) :
  dict_get k d = Some v -> (k, v) ∈ d.
Proof.
  induction d as [| [k0 v0] d IH]; [discriminate |]. cbn [dict_get].
  destruct (String.eqb_spec k k0) as [-> | Hne].
  - intros H. injection H as ->. apply elem_of_cons. now left.
  - intros H. apply elem_of_cons. right. now apply IH.
Qed.

Lemma fill_defaults_lookup (d : list (string * Value)) (a : gmap string Value)
    (k : string) (v : Value) :
  NoDup (map (fun kv => attr kv.1) d) -> (k, v) ∈ d ->
  fill_defaults d a !! attr k = Some (default v (a !! attr k)).
Proof.
  intros Hnd Hin. destruct (a !! attr k) as [u |] eqn:Ha.
  - now apply fill_defaults_given.
  - now apply fill_defaults_absent.
Qed.

Lemma supported_profile_cases (p : string) (profile : list (string * Value)) :
  dict_get p SUPPORTED_PROFILES = Some profile ->
  profile = profile_of "defaults" \/ profile = profile_of "dlrm-kaggle-pytorch".
Proof.
  unfold SUPPORTED_PROFILES. cbn [dict_get].
  destruct (String.eqb p "defaults"); [intros H; injection H as <-; now left |].
  destruct (String.eqb p "dlrm-kaggle-pytorch");
    [intros H; injection H as <-; now right |].
  destruct (String.eqb p "dlrm-terabyte-pytorch");
    [intros H; injection H as <-; now left | discriminate].
Qed.

Lemma profile_attrs_distinct (chosen : list (string * Value)) :
  chosen = profile_of "defaults" \/ chosen = profile_of "dlrm-kaggle-pytorch" ->
  NoDup (map (fun kv => attr kv.1) chosen)
  /\ map (fun kv => attr kv.1) chosen
     = ["dataset"; "inputs"; "outputs"; "backend"; "model"; "max_batchsize"]
  /\ map fst chosen
     = ["dataset"; "inputs"; "outputs"; "backend"; "model"; "max-batchsize"].
Proof.
  assert (NoDup ["dataset"; "inputs"; "outputs"; "backend"; "model";
                 "max_batchsize"]) as Hnd.
  { repeat (apply NoDup_cons_2;
            [rewrite ?elem_of_cons, elem_of_nil; intros H;
             repeat (destruct H as [H | H]; [discriminate |]); exact H |]).
    apply NoDup_nil_2. }
  intros [-> | ->]; (split; [exact Hnd | split; reflexivity]).
Qed.

(** What the first call of [get_args] does, step by step. *)
Lemma get_args_first_call (args : gmap string Value)
    (profiles' : list (string * list (string * Value)))
    (args' : gmap string Value) :
  get_args SUPPORTED_PROFILES args = Some (profiles', args') ->
  exists (chosen : list (string * Value)) (args2 : gmap string Value)
         (sc : string) (scenario : TestScenario),
    chosen_profile args = Some chosen
    /\ (chosen = profile_of "defaults" \/ chosen = profile_of "dlrm-kaggle-pytorch")
    /\ profiles' = dict_set "defaults" chosen SUPPORTED_PROFILES
    /\ split_arg "inputs" (fill_defaults chosen args) = Some args2
    /\ split_arg "outputs" args2 = Some args'
    /\ args' !! "scenario" = Some (VStr sc)
    /\ dict_get sc SCENARIO_MAP = Some scenario.
Proof.
  unfold get_args, chosen_profile.
  change (dict_get "defaults" SUPPORTED_PROFILES)
    with (Some (profile_of "defaults")).
  cbn [mbind option_bind].
  intros H.
  assert (exists chosen,
            (if truthy (args !! "profile")
             then match args !! "profile" with
                  | Some (VStr p) =>
                      profile ← dict_get p SUPPORTED_PROFILES;
                      Some (dict_update (profile_of "defaults") profile)
                  | _ => None
                  end
             else Some (profile_of "defaults")) = Some chosen
            /\ (if truthy (args !! "profile")
                then match args !! "profile" with
                     | Some (VStr p) => dict_get p SUPPORTED_PROFILES
                     | _ => None
                     end
                else Some (profile_of "defaults")) = Some chosen
            /\ (chosen = profile_of "defaults"
                \/ chosen = profile_of "dlrm-kaggle-pytorch"))
    as (chosen & Hc & Hc' & Hcases).
  { destruct (truthy (args !! "profile")).
    - destruct (args !! "profile") as [[p | z | l] |];
        try (cbn [mbind option_bind] in H; discriminate).
      destruct (dict_get p SUPPORTED_PROFILES) as [profile |] eqn:Hp;
        [| cbn [mbind option_bind] in H; discriminate].
      destruct (supported_profile_cases p profile Hp) as [-> | ->];
        eexists; (split; [reflexivity |]); (split; [reflexivity |]); auto.
    - eexists. split; [reflexivity |]. split; [reflexivity |]. now left. }
  rewrite Hc in H. cbn [mbind option_bind] in H.
  destruct (split_arg "inputs" (fill_defaults chosen args)) as [args2 |] eqn:H2;
    [| discriminate].
  cbn [mbind option_bind] in H.
  destruct (split_arg "outputs" args2) as [args3 |] eqn:H3; [| discriminate].
  cbn [mbind option_bind] in H.
  destruct (args3 !! "scenario") as [[sc | z | l] |] eqn:Hsc; try discriminate.
  destruct (dict_get sc SCENARIO_MAP) as [scenario |] eqn:Hmap; [| discriminate].
  injection H as <- <-.
  exists chosen, args2, sc, scenario. repeat split; auto.
Qed.

(** On the first call of [get_args], for each of the six keys of the
    defaults: a value given on the command line is kept; otherwise the
    attribute gets the value of the profile named by [--profile], or of the
    defaults when no profile is named. [inputs] and [outputs] are then split
    on commas. The attribute is never left unset, the scenario is not
    touched, and the global defaults end up overwritten by the chosen
    profile. *)
Theorem command_line_beats_profile_beats_defaults (args : gmap string Value)
    (profiles' : list (string * list (string * Value)))
    (args' : gmap string Value) :
  get_args SUPPORTED_PROFILES args = Some (profiles', args') ->
  exists chosen : list (string * Value),
    chosen_profile args = Some chosen
    /\ dict_get "defaults" profiles' = Some chosen
    /\ (forall k v, dict_get k chosen = Some v ->
          args' !! attr k
          = Some (if bool_decide (k ∈ ["inputs"; "outputs"])
                  then split_value (default v (args !! attr k))
                  else default v (args !! attr k)))
    /\ args' !! "scenario" = args !! "scenario".
Proof.
  intros H.
  destruct (get_args_first_call args profiles' args' H)
    as (chosen & args2 & sc & scenario & Hc & Hcases & Hp & H2 & H3 & _ & _).
  destruct (profile_attrs_distinct chosen Hcases) as (Hnd & Hattrs & Hkeys).
  exists chosen. split; [exact Hc |].
  split; [rewrite Hp; reflexivity |].
  split.
  - intros k v Hk. apply dict_get_elem in Hk.
    pose proof (fill_defaults_lookup chosen args k v Hnd Hk) as Hfill.
    assert (k ∈ map fst chosen) as Hin
      by (apply (list_elem_of_fmap_2 fst chosen (k, v)); exact Hk).
    rewrite Hkeys in Hin.
    rewrite !elem_of_cons, elem_of_nil in Hin.
    destruct Hin as [-> | [-> | [-> | [-> | [-> | [-> | []]]]]]];
      match goal with
      | |- context [attr ?k] =>
          let k' := eval cbv in (attr k) in change (attr k) with k' in *
      end.
    all: try (rewrite bool_decide_eq_false_2
                by (rewrite !elem_of_cons, elem_of_nil;
                    intros [? | [? | []]]; discriminate);
              rewrite (split_arg_other "outputs" args2 args' _ H3) by discriminate;
              rewrite (split_arg_other "inputs" _ args2 _ H2) by discriminate;
              exact Hfill).
    + rewrite bool_decide_eq_true_2 by (apply elem_of_cons; now left).
      rewrite (split_arg_other "outputs" args2 args' _ H3) by discriminate.
      rewrite (split_arg_self "inputs" _ args2 H2). now rewrite Hfill.
    + rewrite bool_decide_eq_true_2
        by (apply elem_of_cons; right; apply elem_of_cons; now left).
      rewrite (split_arg_self "outputs" args2 args' H3).
      rewrite (split_arg_other "inputs" _ args2 _ H2) by discriminate.
      now rewrite Hfill.
  - rewrite (split_arg_other "outputs" args2 args' _ H3) by discriminate.
    rewrite (split_arg_other "inputs" _ args2 _ H2) by discriminate.
    apply fill_defaults_other. rewrite Hattrs.
    rewrite !elem_of_cons, elem_of_nil. intros Hin.
    repeat (destruct Hin as [Hin | Hin]; [discriminate |]). exact Hin.
Qed.

Lemma command_line_beats_profile_beats_defaults_witness :
  exists (profiles' : list (string * list (string * Value)))
         (args' : gmap string Value),
    get_args SUPPORTED_PROFILES
      (<["profile" := VStr "dlrm-kaggle-pytorch"]>
         (<["scenario" := VStr "Offline"]>
            (<["dataset" := VStr "terabyte"]> ∅)))
    = Some (profiles', args')
    /\ args' !! "dataset" = Some (VStr "terabyte")
    /\ args' !! "max_batchsize" = Some (VInt 128)
    /\ args' !! "inputs" = Some (VList ["continuous and categorical features"]).
Proof.
  assert (exists r, get_args SUPPORTED_PROFILES
                      (<["profile" := VStr "dlrm-kaggle-pytorch"]>
                         (<["scenario" := VStr "Offline"]>
                            (<["dataset" := VStr "terabyte"]> ∅)))
                    = Some r) as [[profiles' args'] H]
    by (vm_compute; eexists; reflexivity).
  exists profiles', args'. split; [exact H |].
  destruct (command_line_beats_profile_beats_defaults _ _ _ H)
    as (chosen & Hc & _ & Hk & _).
  assert (chosen = profile_of "dlrm-kaggle-pytorch") as ->
    by (vm_compute in Hc; now injection Hc as <-).
  split; [exact (Hk "dataset" (VStr "kaggle") eq_refl) |].
  split; [exact (Hk "max-batchsize" (VInt 128) eq_refl) |].
  exact (Hk "inputs" (VStr "continuous and categorical features") eq_refl).
Defined.

(** Without [--max-batchsize] on the command line the first call of
    [get_args] resolves the maximum batch size to 2048 or 128, a positive
    number, and a runner built with it never raises in [enqueue]. *)
Theorem resolved_batch_size_is_positive (args : gmap string Value)
    (profiles' : list (string * list (string * Value)))
    (args' : gmap string Value) :
  get_args SUPPORTED_PROFILES args = Some (profiles', args') ->
  args !! "max_batchsize" = None ->
  exists B : Z,
    args' !! "max_batchsize" = Some (VInt B)
    /\ (B = 2048 \/ B = 128)%Z
    /\ (0 < B)%Z
    /\ forall inQueue clock qs idx,
         enqueue (mkQueueRunner inQueue B) clock qs idx <> None.
Proof.
  intros H Habsent.
  destruct (get_args_first_call args profiles' args' H)
    as (chosen & args2 & sc & scenario & Hc & Hcases & Hp & H2 & H3 & _ & _).
  destruct (profile_attrs_distinct chosen Hcases) as (Hnd & _ & _).
  assert (exists B, dict_get "max-batchsize" chosen = Some (VInt B)
                    /\ (B = 2048 \/ B = 128)%Z) as (B & HB & Hval).
  { destruct Hcases as [-> | ->]; eexists; (split; [reflexivity |]); lia. }
  exists B.
  assert (args' !! "max_batchsize" = Some (VInt B)) as Hres.
  { rewrite (split_arg_other "outputs" args2 args' _ H3) by discriminate.
    rewrite (split_arg_other "inputs" _ args2 _ H2) by discriminate.
    pose proof (fill_defaults_lookup chosen args "max-batchsize" (VInt B) Hnd
                  (dict_get_elem _ _ _ HB)) as Hfill.
    change (attr "max-batchsize") with "max_batchsize" in Hfill.
    now rewrite Hfill, Habsent. }
  split; [exact Hres |]. split; [exact Hval |]. split; [lia |].
  intros inQueue clock qs idx. unfold enqueue, Py.range3.
  cbn [max_batchsize].
  destruct (Z.of_nat (length qs) <? B)%Z; [discriminate |].
  destruct (Z.eqb_spec B 0); [lia | discriminate].
Qed.

Lemma resolved_batch_size_is_positive_witness :
  exists (profiles' : list (string * list (string * Value)))
         (args' : gmap string Value),
    get_args SUPPORTED_PROFILES (<["scenario" := VStr "Offline"]> ∅)
    = Some (profiles', args')
    /\ (<["scenario" := VStr "Offline"]> ∅ : gmap string Value) !! "max_batchsize"
       = None
    /\ exists B : Z, args' !! "max_batchsize" = Some (VInt B) /\ (0 < B)%Z.
Proof.
  assert (exists r, get_args SUPPORTED_PROFILES (<["scenario" := VStr "Offline"]> ∅)
                    = Some r) as [[profiles' args'] H]
    by (vm_compute; eexists; reflexivity).
  exists profiles', args'. split; [exact H |]. split; [reflexivity |].
  destruct (resolved_batch_size_is_positive _ _ _ H eq_refl)
    as (B & HB & _ & Hpos & _).
  exists B. split; assumption.
Defined.

(** [get_args] lets the four scenario names through and leaves the
    scenario as given, but [main] has a runner for [Server] and [Offline]
    only: with [SingleStream] (the default of the parser) or [MultiStream]
    the lookup in [runner_map] raises. *)
Theorem only_server_and_offline_have_a_runner (args : gmap string Value)
    (profiles' : list (string * list (string * Value)))
    (args' : gmap string Value) :
  get_args SUPPORTED_PROFILES args = Some (profiles', args') ->
  exists sc : string,
    args !! "scenario" = Some (VStr sc)
    /\ args' !! "scenario" = Some (VStr sc)
    /\ sc ∈ ["SingleStream"; "MultiStream"; "Server"; "Offline"]
    /\ forall inQueue B,
         make_runner sc inQueue B
         = if bool_decide (sc ∈ ["Server"; "Offline"])
           then Some (mkQueueRunner inQueue B) else None.
Proof.
  intros H.
  destruct (get_args_first_call args profiles' args' H)
    as (chosen & args2 & sc & scenario & Hc & Hcases & Hp & H2 & H3 & Hsc & Hmap).
  destruct (profile_attrs_distinct chosen Hcases) as (_ & Hattrs & _).
  exists sc.
  assert (args' !! "scenario" = args !! "scenario") as Hsame.
  { rewrite (split_arg_other "outputs" args2 args' _ H3) by discriminate.
    rewrite (split_arg_other "inputs" _ args2 _ H2) by discriminate.
    apply fill_defaults_other. rewrite Hattrs.
    rewrite !elem_of_cons, elem_of_nil. intros Hin.
    repeat (destruct Hin as [Hin | Hin]; [discriminate |]). exact Hin. }
  split; [now rewrite <- Hsame |]. split; [exact Hsc |].
  unfold make_runner. unfold SCENARIO_MAP in *. cbn [dict_get] in *.
  destruct (String.eqb_spec sc "SingleStream") as [-> | _];
    [split; [rewrite !elem_of_cons; tauto | reflexivity] |].
  destruct (String.eqb_spec sc "MultiStream") as [-> | _];
    [split; [rewrite !elem_of_cons; tauto | reflexivity] |].
  destruct (String.eqb_spec sc "Server") as [-> | _];
    [split; [rewrite !elem_of_cons; tauto | reflexivity] |].
  destruct (String.eqb_spec sc "Offline") as [-> | _];
    [split; [rewrite !elem_of_cons; tauto | reflexivity] |].
  discriminate.
Qed.

Lemma only_server_and_offline_have_a_runner_witness :
  exists (profiles' : list (string * list (string * Value)))
         (args' : gmap string Value),
    get_args SUPPORTED_PROFILES (<["scenario" := VStr "SingleStream"]> ∅)
    = Some (profiles', args')
    /\ make_runner "SingleStream" [] 2048 = None.
Proof.
  assert (exists r, get_args SUPPORTED_PROFILES
                      (<["scenario" := VStr "SingleStream"]> ∅)
                    = Some r) as [[profiles' args'] H]
    by (vm_compute; eexists; reflexivity).
  exists profiles', args'. split; [exact H |].
  destruct (only_server_and_offline_have_a_runner _ _ _ H)
    as (sc & Hsc & _ & _ & Hrun).
  assert (sc = "SingleStream") as -> by (vm_compute in Hsc; now injection Hsc as <-).
  exact (Hrun [] 2048%Z).
Defined.

(** ** Splitting on commas *)

Lemma split_nonempty (sep : Ascii.ascii) (s : string) : split sep s <> [].
Proof.
  destruct s as [| c s]; [discriminate |]. cbn [split].
  destruct (Ascii.eqb c sep); [discriminate |].
  destruct (split sep s); discriminate.
Qed.

Lemma split_join (sep : Ascii.ascii) (s : string) :
  String.concat (String sep EmptyString) (split sep s) = s.
Proof.
  induction s as [| c s IH]; [reflexivity |]. cbn [split].
  pose proof (split_nonempty sep s) as Hne.
  destruct (Ascii.eqb_spec c sep) as [-> | Hc].
  - destruct (split sep s) as [| piece pieces]; [congruence |].
    rewrite <- IH. reflexivity.
  - destruct (split sep s) as [| piece pieces]; [congruence |].
    rewrite <- IH. destruct pieces; reflexivity.
Qed.

Lemma split_pieces_clean (sep : Ascii.ascii) (s : string) :
  Forall (fun piece => contains sep piece = false) (split sep s).
Proof.
  induction s as [| c s IH]; [repeat constructor |]. cbn [split].
  destruct (Ascii.eqb_spec c sep) as [-> | Hc].
  - constructor; [reflexivity | exact IH].
  - destruct (split sep s) as [| piece pieces].
    + constructor; [| constructor]. cbn [contains].
      destruct (Ascii.eqb_spec c sep); [congruence | reflexivity].
    + inversion IH as [| ? ? Hp Hps]; subst. constructor; [| exact Hps].
      cbn [contains]. destruct (Ascii.eqb_spec c sep); [congruence | exact Hp].
Qed.

(** A non-empty [--inputs] (or [--outputs]) string comes out of [get_args]
    as the list of its comma-separated pieces: no piece holds a comma, and
    the pieces joined by commas are the string that was given. *)
Theorem inputs_are_split_on_commas (args : gmap string Value)
    (profiles' : list (string * list (string * Value)))
    (args' : gmap string Value) (name s : string) :
  get_args SUPPORTED_PROFILES args = Some (profiles', args') ->
  name ∈ ["inputs"; "outputs"] ->
  args !! name = Some (VStr s) -> s <> "" ->
  exists pieces : list string,
    args' !! name = Some (VList pieces)
    /\ pieces <> []
    /\ Forall (fun piece => contains ","%char piece = false) pieces
    /\ String.concat "," pieces = s.
Proof.
  intros H Hname Hs Hne.
  destruct (get_args_first_call args profiles' args' H)
    as (chosen & args2 & sc & scenario & Hc & Hcases & Hp & H2 & H3 & _ & _).
  exists (split ","%char s).
  split.
  - assert (fill_defaults chosen args !! name = Some (VStr s)) as Hfill
      by now apply fill_defaults_given.
    assert (split_value (VStr s) = VList (split ","%char s)) as Hsplit.
    { unfold split_value. destruct (String.eqb_spec s ""); [congruence | reflexivity]. }
    rewrite !elem_of_cons, elem_of_nil in Hname.
    destruct Hname as [-> | [-> | []]].
    + rewrite (split_arg_other "outputs" args2 args' _ H3) by discriminate.
      rewrite (split_arg_self "inputs" _ args2 H2), Hfill.
      cbn [fmap option_fmap option_map]. now rewrite Hsplit.
    + rewrite (split_arg_self "outputs" args2 args' H3).
      rewrite (split_arg_other "inputs" _ args2 _ H2) by discriminate.
      rewrite Hfill. cbn [fmap option_fmap option_map]. now rewrite Hsplit.
  - split; [apply split_nonempty |].
    split; [apply split_pieces_clean | apply split_join].
Qed.

Lemma inputs_are_split_on_commas_witness :
  exists (profiles' : list (string * list (string * Value)))
         (args' : gmap string Value),
    get_args SUPPORTED_PROFILES
      (<["inputs" := VStr "dense,sparse"]> (<["scenario" := VStr "Server"]> ∅))
    = Some (profiles', args')
    /\ exists pieces : list string,
         args' !! "inputs" = Some (VList pieces)
         /\ String.concat "," pieces = "dense,sparse".
Proof.
  assert (exists r, get_args SUPPORTED_PROFILES
                      (<["inputs" := VStr "dense,sparse"]>
                         (<["scenario" := VStr "Server"]> ∅))
                    = Some r) as [[profiles' args'] H]
    by (vm_compute; eexists; reflexivity).
  exists profiles', args'. split; [exact H |].
  destruct (inputs_are_split_on_commas _ _ _ "inputs" "dense,sparse" H
              ltac:(apply elem_of_cons; now left) eq_refl ltac:(discriminate))
    as (pieces & Hp & _ & _ & Hjoin).
  exists pieces. split; assumption.
Defined.

(** ** Backend selection *)

(** [get_backend] returns a backend exactly for the backend name
    "pytorch-native" with the dataset "kaggle", or with the dataset
    "terabyte" and a maximum index range of 10000000 or 40000000; every
    other call raises [ValueError], with the backend name checked first,
    the dataset second and the index range last. The sub-sample rate plays
    no part. *)
Theorem get_backend_accepts {F : Type} (backend dataset : string)
    (max_ind_range : Z) (data_sub_sample_rate : F) (gpu ipex : bool) :
  ((exists b, get_backend backend dataset max_ind_range data_sub_sample_rate
                gpu ipex = inl b)
   <-> backend = "pytorch-native"
       /\ (dataset = "kaggle"
           \/ dataset = "terabyte"
              /\ (max_ind_range = 10000000 \/ max_ind_range = 40000000)%Z))
  /\ (backend <> "pytorch-native" ->
        get_backend backend dataset max_ind_range data_sub_sample_rate gpu ipex
        = inr ("unknown backend: " ++ backend)%string)
  /\ (backend = "pytorch-native" -> dataset <> "kaggle" -> dataset <> "terabyte" ->
        get_backend backend dataset max_ind_range data_sub_sample_rate gpu ipex
        = inr "only kaggle|terabyte dataset options are supported")
  /\ (backend = "pytorch-native" -> dataset = "terabyte" ->
        max_ind_range <> 10000000%Z -> max_ind_range <> 40000000%Z ->
        get_backend backend dataset max_ind_range data_sub_sample_rate gpu ipex
        = inr "only --max-in-range 10M or 40M is supported").
Proof.
  unfold get_backend.
  destruct (String.eqb_spec backend "pytorch-native") as [Hb | Hb].
  2:{ split; [split; [intros [b H]; discriminate | tauto] |].
      split; [reflexivity |]. split; intros; congruence. }
  destruct (String.eqb_spec dataset "kaggle") as [Hk | Hk].
  { split; [split; [tauto | eauto] |].
    split; [congruence |]. split; [congruence |].
    intros _ Ht. subst. discriminate. }
  destruct (String.eqb_spec dataset "terabyte") as [Ht | Ht].
  2:{ split; [split; [intros [b H]; discriminate | tauto] |].
      split; [congruence |]. split; [reflexivity | congruence]. }
  destruct (Z.eqb_spec max_ind_range 10000000) as [H10 | H10].
  { split; [split; [tauto | eauto] |].
    split; [congruence |]. split; congruence. }
  destruct (Z.eqb_spec max_ind_range 40000000) as [H40 | H40].
  { split; [split; [tauto | eauto] |].
    split; [congruence |]. split; congruence. }
  split; [split; [intros [b H]; discriminate | tauto] |].
  split; [congruence |]. split; [congruence | reflexivity].
Qed.

Lemma get_backend_accepts_witness :
  "onnxruntime" <> "pytorch-native"
  /\ get_backend "onnxruntime" "kaggle" (-1) tt false false
     = inr "unknown backend: onnxruntime"
  /\ get_backend "pytorch-native" "terabyte" (-1) tt false false
     = inr "only --max-in-range 10M or 40M is supported".
Proof.
  assert ("onnxruntime" <> "pytorch-native") as H1 by discriminate.
  split; [exact H1 |].
  split.
  - exact (proj1 (proj2 (get_backend_accepts "onnxruntime" "kaggle" (-1) tt
                           false false)) H1).
  - exact (proj2 (proj2 (proj2 (get_backend_accepts "pytorch-native" "terabyte"
                                  (-1) tt false false)))
                 eq_refl eq_refl ltac:(discriminate) ltac:(discriminate)).
Defined.

(** Every backend [get_backend] returns is a consistent DLRM layout: 26
    embedding tables, all with a positive number of rows; a bottom MLP
    that takes the 13 dense features and ends at the embedding dimension
    [m_spa]; a top MLP whose input is that dimension plus the 27*26/2
    pairwise interactions and whose output is a single value. [use_gpu] is
    handed through, and [use_ipex] is handed through in the 40M layout
    only. *)
Theorem get_backend_layout {F : Type} (backend dataset : string)
    (max_ind_range : Z) (data_sub_sample_rate : F) (gpu ipex : bool)
    (b : BackendPytorchNative) :
  get_backend backend dataset max_ind_range data_sub_sample_rate gpu ipex = inl b ->
  length (ln_emb b) = 26%nat
  /\ Forall (fun rows => 0 < rows)%Z (ln_emb b)
  /\ head (ln_bot b) = Some 13%Z
  /\ last (ln_bot b) = Some (m_spa b)
  /\ head (ln_top b) = Some (m_spa b + 27 * 26 / 2)%Z
  /\ last (ln_top b) = Some 1%Z
  /\ use_gpu b = gpu
  /\ use_ipex b = (if (max_ind_range =? 40000000)%Z && String.eqb dataset "terabyte"
                   then Some ipex else None).
Proof.
  unfold get_backend.
  destruct (String.eqb backend "pytorch-native"); [| discriminate].
  destruct (String.eqb dataset "kaggle") eqn:Hk.
  { intros H. injection H as <-. cbn [ln_emb ln_bot ln_top m_spa use_gpu use_ipex].
    assert (String.eqb dataset "terabyte" = false) as ->.
    { apply String.eqb_eq in Hk. subst. reflexivity. }
    rewrite andb_false_r.
    repeat split; try reflexivity. repeat constructor. }
  destruct (String.eqb dataset "terabyte"); [| discriminate].
  destruct (Z.eqb_spec max_ind_range 10000000) as [-> | H10].
  { intros H. injection H as <-. cbn [ln_emb ln_bot ln_top m_spa use_gpu use_ipex].
    repeat split; try reflexivity. repeat constructor. }
  destruct (Z.eqb_spec max_ind_range 40000000) as [-> | H40]; [| discriminate].
  intros H. injection H as <-. cbn [ln_emb ln_bot ln_top m_spa use_gpu use_ipex].
  repeat split; try reflexivity. repeat constructor.
Qed.

Lemma get_backend_layout_witness :
  exists b : BackendPytorchNative,
    get_backend "pytorch-native" "terabyte" 40000000 tt false true = inl b
    /\ m_spa b = 128%Z
    /\ head (ln_top b) = Some (128 + 27 * 26 / 2)%Z
    /\ use_ipex b = Some true.
Proof.
  eexists. split; [reflexivity |].
  split; [reflexivity |].
  pose proof (get_backend_layout "pytorch-native" "terabyte" 40000000 tt false
                true _ eq_refl) as (_ & _ & _ & _ & Htop & _ & _ & Hipex).
  split; [exact Htop | exact Hipex].
Defined.

Lemma response_batch_pairs_by_position_witness :
  length (OItem.array_ref (OItem.mk 1 2 0 [] [5; 6]%Z [[x01]; [x02; x03]]))
  = length (OItem.query_ids (OItem.mk 1 2 0 [] [5; 6]%Z [[x01]; [x02; x03]]))
  /\ map resp_id (response_batch (OItem.mk 1 2 0 [] [5; 6]%Z [[x01]; [x02; x03]]))
     = [5; 6]%Z.
Proof.
  assert (length (OItem.array_ref (OItem.mk 1 2 0 [] [5; 6]%Z [[x01]; [x02; x03]]))
          = length (OItem.query_ids
                      (OItem.mk 1 2 0 [] [5; 6]%Z [[x01]; [x02; x03]]))) as H
    by reflexivity.
  split; [exact H |].
  exact (proj1 (proj2 (proj2 (proj2 (proj2
           (response_batch_pairs_by_position false
              (OItem.mk 1 2 0 [] [5; 6]%Z [[x01]; [x02; x03]])
              Toy.empty_aggregate)))) H)).
Defined.
